(** * A shallow embedding of the gtb Vulkan application (src/gtb/gtb.cpp)

    The embedding covers the parts of [gtb::application] that decide
    adapter selection, memory-type lookup, static uploads, the per-frame
    uniform offsets, the frame loop's fence discipline, teardown order and
    the glTF component sizes.  Vulkan calls are modelled as operations of a
    small state-and-exception monad over an explicit device state; 32-bit
    unsigned arithmetic is written on [Z] with its wrap-around. *)

From Stdlib Require Import ZArith Lia Bool Sorted.
From stdpp Require Import base gmap list strings.

Local Open Scope Z_scope.

(* ------------------------------------------------------------------ *)
(** ** Exceptions thrown with BOOST_THROW_EXCEPTION (exception.hpp) *)

Inductive error :=
| capability_exception (description : string)
| file_exception (file_name : string)
| glfw_exception (failed_function : string)
(** a [vk::SystemError] thrown by vulkan.hpp for a failed call *)
| vk_system_error (result : string).

(** uint32_t arithmetic *)
Definition u32 (z : Z) : Z := z mod 2 ^ 32.

(* ------------------------------------------------------------------ *)
(** ** align_up (gtb.cpp, namespace gtb)

    [return ((value + align - 1) & ~(align - 1));] on uint32_t. *)

Definition align_up (value align : Z) : Z :=
  u32 (Z.land (u32 (value + align - 1)) (u32 (Z.lnot (u32 (align - 1))))).

(* ------------------------------------------------------------------ *)
(** ** glTF component types (tinygltf) and [application::gltf_component_size] *)

Definition TINYGLTF_COMPONENT_TYPE_BYTE : Z := 5120.
Definition TINYGLTF_COMPONENT_TYPE_UNSIGNED_BYTE : Z := 5121.
Definition TINYGLTF_COMPONENT_TYPE_SHORT : Z := 5122.
Definition TINYGLTF_COMPONENT_TYPE_UNSIGNED_SHORT : Z := 5123.
Definition TINYGLTF_COMPONENT_TYPE_INT : Z := 5124.
Definition TINYGLTF_COMPONENT_TYPE_UNSIGNED_INT : Z := 5125.
Definition TINYGLTF_COMPONENT_TYPE_FLOAT : Z := 5126.
Definition TINYGLTF_COMPONENT_TYPE_DOUBLE : Z := 5130.

Definition gltf_component_size (component : Z) : Z :=
  if (component =? TINYGLTF_COMPONENT_TYPE_BYTE)
     || (component =? TINYGLTF_COMPONENT_TYPE_UNSIGNED_BYTE) then 1
  else if (component =? TINYGLTF_COMPONENT_TYPE_SHORT)
     || (component =? TINYGLTF_COMPONENT_TYPE_UNSIGNED_SHORT) then 2
  else if (component =? TINYGLTF_COMPONENT_TYPE_INT)
     || (component =? TINYGLTF_COMPONENT_TYPE_UNSIGNED_INT)
     || (component =? TINYGLTF_COMPONENT_TYPE_FLOAT) then 4
  else if component =? TINYGLTF_COMPONENT_TYPE_DOUBLE then 8
  else 0.

(** Unsigned C++ division: a zero divisor is undefined behaviour, which the
    model reports as [None]. *)
Definition cpp_udiv (a b : Z) : option Z :=
  if b =? 0 then None else Some (a / b).

(** The index accessor fields read by [application::gltf_load_ibo]. *)
Record gltf_accessor := {
  acc_byteOffset : Z;     (* size_t *)
  acc_componentType : Z;  (* int *)
  acc_count : Z           (* size_t *)
}.

(** The divisor and the quotient of
    [node_draw.first_index = static_cast<uint32_t>(index_accessor.byteOffset
       / gltf_component_size(index_accessor.componentType));] *)
Definition gltf_first_index_divisor (a : gltf_accessor) : Z :=
  gltf_component_size (acc_componentType a).

Definition gltf_first_index (a : gltf_accessor) : option Z :=
  option_map u32 (cpp_udiv (acc_byteOffset a) (gltf_first_index_divisor a)).

(* ------------------------------------------------------------------ *)
(** ** Memory properties and [application::get_memory_type] *)

(** vk::MemoryPropertyFlagBits *)
Definition eDeviceLocal : Z := 1.
Definition eHostVisible : Z := 2.
Definition eHostCoherent : Z := 4.

Definition staging_memory_properties : Z := Z.lor eHostVisible eHostCoherent.
Definition optimized_memory_properties : Z := eDeviceLocal.
Definition ubo_memory_properties : Z := Z.lor eHostVisible eHostCoherent.

(** [m_memory_properties.memoryTypes[i].propertyFlags]; the array has
    VK_MAX_MEMORY_TYPES = 32 zero-initialised entries, the first
    [memoryTypeCount] of which the driver fills in. *)
Definition memory_type_flags (memory_types : list Z) (i : nat) : Z :=
  default 0 (memory_types !! i).

(** [_BitScanForward(&index, mask)] on a 32-bit mask: the position of the
    lowest set bit, or failure when the mask is zero. *)
Fixpoint bit_scan_from (mask : Z) (i : nat) (fuel : nat) : option nat :=
  match fuel with
  | O => None
  | S fuel' => if Z.testbit mask (Z.of_nat i) then Some i
               else bit_scan_from mask (S i) fuel'
  end.

Definition bit_scan_forward (mask : Z) : option nat := bit_scan_from mask 0 32.

(** The [while] loop; every iteration clears one of the 32 bits, so 32
    iterations suffice. *)
Fixpoint get_memory_type_loop (memory_types : list Z) (desired : Z)
    (allowed_types : Z) (fuel : nat) : error + nat :=
  match fuel with
  | O => inl (capability_exception "Could not find needed memory type.")
  | S fuel' =>
      match bit_scan_forward allowed_types with
      | None => inl (capability_exception "Could not find needed memory type.")
      | Some mem_type =>
          if Z.land (memory_type_flags memory_types mem_type) desired =? desired
          then inr mem_type
          else get_memory_type_loop memory_types desired
                 (u32 (Z.land allowed_types (Z.lnot (Z.shiftl 1 (Z.of_nat mem_type)))))
                 fuel'
      end
  end.

Definition get_memory_type (memory_types : list Z) (allowed_types desired : Z)
    : error + nat :=
  get_memory_type_loop memory_types desired allowed_types 32.

(** The lookup the spec describes, as a second definition: the first index,
    in ascending order, among the allowed ones whose flags contain the
    requested ones. *)
Fixpoint first_matching_type (memory_types : list Z) (allowed desired : Z)
    (i : nat) (n : nat) : option nat :=
  match n with
  | O => None
  | S n' =>
      if Z.testbit allowed (Z.of_nat i)
         && (Z.land (memory_type_flags memory_types i) desired =? desired)
      then Some i
      else first_matching_type memory_types allowed desired (S i) n'
  end.

Definition find_memory_type_spec (memory_types : list Z) (allowed desired : Z)
    : error + nat :=
  match first_matching_type memory_types allowed desired 0 32 with
  | Some i => inr i
  | None => inl (capability_exception "Could not find needed memory type.")
  end.

(* ------------------------------------------------------------------ *)
(** ** Per-draw dynamic uniform offsets in [application::draw]

    [uint32_t ubo_offset = 0;] then, for every draw record,
    [dynamic_ubo_offsets[0] = ubo_offset;
     ubo_offset = align_up(ubo_offset + sizeof(glm::mat4), m_ubo_min_field_align);]
    The list returned is the sequence of offsets handed to
    [bindDescriptorSets]. *)

Definition sizeof_mat4 : Z := 64.

Fixpoint draw_ubo_offsets {D : Type} (ubo_min_field_align : Z) (draws : list D)
    (ubo_offset : Z) : list Z :=
  match draws with
  | [] => []
  | _ :: draws' =>
      ubo_offset
      :: draw_ubo_offsets ubo_min_field_align draws'
           (align_up (ubo_offset + sizeof_mat4) ubo_min_field_align)
  end.

(** [application::per_frame_ubo_size]: the size of each frame's uniform
    buffer and of the range [draw] maps with [mapMemory]. *)
Definition per_frame_ubo_size : Z := 65535.

(** Whether every per-draw store [*reinterpret_cast<glm::mat4*>(ubo_data +
    ubo_offset)] of one frame lies inside the mapped range of
    [per_frame_ubo_size] bytes.  [draw] does not check this; a store past the
    range is undefined behaviour (and the dynamic offset bound with it lies
    outside the buffer). *)
Definition ubo_writes_in_bounds {D : Type} (ubo_min_field_align : Z) (draws : list D) : bool :=
  forallb (fun o => o + sizeof_mat4 <=? per_frame_ubo_size)
          (draw_ubo_offsets ubo_min_field_align draws 0).

(* ------------------------------------------------------------------ *)
(** ** Physical-device selection in [application::vk_create_device_objects]

    What the loop queries of each enumerated [vk::PhysicalDevice]. *)

(** vk::QueueFlagBits *)
Definition eGraphics : Z := 1.
Definition eCompute : Z := 2.

(** vk::Format, vk::ColorSpaceKHR, vk::PresentModeKHR, vk::PhysicalDeviceType *)
Definition eUndefined : Z := 0.
Definition eB8G8R8A8Unorm : Z := 44.
Definition eSrgbNonlinear : Z := 0.
Definition eMailbox : Z := 1.
Definition eIntegratedGpu : Z := 1.
Definition eDiscreteGpu : Z := 2.

Record surface_format := { sf_format : Z; sf_colorSpace : Z }.

Record physical_device := {
  pd_handle : positive;                          (* a non-null handle *)
  pd_extensions : list string;                   (* enumerateDeviceExtensionProperties *)
  pd_queue_families : list Z;                    (* getQueueFamilyProperties: queueFlags *)
  pd_surface_support : list bool;                (* getSurfaceSupportKHR(i, m_surface) *)
  pd_surface_formats : list surface_format;      (* getSurfaceFormatsKHR *)
  pd_present_modes : list Z;                     (* getSurfacePresentModesKHR *)
  pd_deviceType : Z                              (* getProperties().deviceType *)
}.

(** [std::count(required.begin(), required.end(), name)] *)
Definition count_name (required : list string) (name : string) : nat :=
  length (filter (fun r => bool_decide (r = name)) required).

(** [found_extensions += std::count(...)] over the device's extensions *)
Definition found_extensions (required : list string) (pd : physical_device) : nat :=
  foldl (fun n e => (n + count_name required e)%nat) 0%nat (pd_extensions pd).

(** The [for (queue_family_index = 0; ...)] loop: the first family with
    graphics and compute and surface support, or the family count. *)
Fixpoint queue_family_scan (families : list Z) (support : list bool)
    (queue_family_index : Z) : Z :=
  match families with
  | [] => queue_family_index
  | flags :: families' =>
      let surface_support := default false (support !! Z.to_nat queue_family_index) in
      let graphics_and_compute := Z.lor eGraphics eCompute in
      if (Z.land flags graphics_and_compute =? graphics_and_compute) && surface_support
      then queue_family_index
      else queue_family_scan families' support (queue_family_index + 1)
  end.

Definition find_queue_family (pd : physical_device) : Z :=
  queue_family_scan (pd_queue_families pd) (pd_surface_support pd) 0.

Definition found_surface_format (formats : list surface_format) : bool :=
  (match formats with [f] => sf_format f =? eUndefined | _ => false end)
  || existsb (fun f => (sf_format f =? eB8G8R8A8Unorm)
                       && (sf_colorSpace f =? eSrgbNonlinear)) formats.

Definition found_present_mode (modes : list Z) : bool :=
  existsb (fun m => m =? eMailbox) modes.

(** The loop body, check by check; the shared [queue_family_index]
    variable and [found_physical_device] are threaded through, [continue]
    is a recursive call and [break] returns. *)
Fixpoint select_physical_device (required : list string)
    (physical_devices : list physical_device)
    (found : option physical_device) (queue_family_index : Z)
    : option physical_device * Z :=
  match physical_devices with
  | [] => (found, queue_family_index)
  | pd :: rest =>
      let continue_ qfi := select_physical_device required rest found qfi in
      if bool_decide (pd_extensions pd = []) then continue_ queue_family_index
      else if negb (Nat.eqb (found_extensions required pd) (length required))
      then continue_ queue_family_index
      else if bool_decide (pd_queue_families pd = []) then continue_ queue_family_index
      else
        let qfi := find_queue_family pd in
        if qfi =? Z.of_nat (length (pd_queue_families pd)) then continue_ qfi
        else if bool_decide (pd_surface_formats pd = []) then continue_ qfi
        else if negb (found_surface_format (pd_surface_formats pd)) then continue_ qfi
        else if bool_decide (pd_present_modes pd = []) then continue_ qfi
        else if negb (found_present_mode (pd_present_modes pd)) then continue_ qfi
        else if pd_deviceType pd =? eDiscreteGpu then (Some pd, qfi)
        else select_physical_device required rest (Some pd) qfi
  end.

(** The selection part of [vk_create_device_objects]:
    the chosen device and [m_queue_family_index], or the exception. *)
Definition vk_select_physical_device (required : list string)
    (physical_devices : list physical_device) : error + (physical_device * Z) :=
  if bool_decide (physical_devices = []) then
    inl (capability_exception "No Vulkan physical devices enumerated.")
  else
    match select_physical_device required physical_devices None
            (2 ^ 32 - 1) with
    | (Some pd, qfi) => inr (pd, qfi)
    | (None, _) =>
        inl (capability_exception "No Vulkan physical devices meets requirements.")
    end.

(** The four checks of the loop body, as one predicate on a device. *)
Definition passes_all_checks (required : list string) (pd : physical_device) : bool :=
  negb (bool_decide (pd_extensions pd = []))
  && Nat.eqb (found_extensions required pd) (length required)
  && negb (bool_decide (pd_queue_families pd = []))
  && negb (find_queue_family pd =? Z.of_nat (length (pd_queue_families pd)))
  && negb (bool_decide (pd_surface_formats pd = []))
  && found_surface_format (pd_surface_formats pd)
  && negb (bool_decide (pd_present_modes pd = []))
  && found_present_mode (pd_present_modes pd).

Definition is_discrete (pd : physical_device) : bool := pd_deviceType pd =? eDiscreteGpu.

(* ------------------------------------------------------------------ *)
(** ** Device objects and the state the upload path works on *)

(** vk::BufferUsageFlagBits *)
Definition eTransferSrc : Z := 1.
Definition eTransferDst : Z := 2.
Definition eUniformBuffer : Z := 16.
Definition eIndexBuffer : Z := 64.
Definition eVertexBuffer : Z := 128.

(** The physical-device facts the upload path consults: the memory-type
    table and the answers of [getBufferMemoryRequirements] and
    [getImageMemoryRequirements] (size, memoryTypeBits). *)
Record device_info := {
  di_memory_types : list Z;
  di_buffer_requirements : Z -> Z -> Z * Z;        (* usage, size *)
  di_image_requirements : Z -> Z -> Z -> Z * Z;    (* width, height, format *)
  di_allocation_succeeds : nat -> Z -> bool        (* memory type, size *)
}.

Record buffer_obj := { bo_size : Z; bo_usage : Z; bo_memory : option nat }.
Record memory_obj := { mo_type : nat; mo_size : Z; mo_bytes : list Byte.byte }.
Record image_obj := { io_width : Z; io_height : Z; io_format : Z; io_memory : option nat }.

(** [device_buffer] and [device_image] of the application class *)
Record device_buffer := { db_buffer : nat; db_device_memory : nat }.
Record device_image := { di_image : nat; di_device_memory : nat; di_view : nat }.

Inductive command :=
| cmd_copy_buffer (src dst : nat) (size : Z)
| cmd_pipeline_barrier (image : nat) (old_layout new_layout : Z)
| cmd_copy_buffer_to_image (src image : nat).

Inductive event :=
| ev_create_buffer (h : nat) (usage size : Z)
| ev_allocate_memory (h : nat) (memory_type : nat) (size : Z)
| ev_bind_memory (object memory : nat)
| ev_map_memory (memory : nat) (size : Z)
| ev_memcpy (memory : nat) (bytes : list Byte.byte)
| ev_unmap_memory (memory : nat)
| ev_create_image (h : nat)
| ev_create_image_view (h image : nat)
| ev_allocate_command_buffer (h : nat)
| ev_record (cb : nat) (c : command)
| ev_end_command_buffer (cb : nat)
| ev_submit (cb : nat)
| ev_queue_wait_idle
| ev_free_command_buffer (cb : nat)
| ev_destroy_buffer (h : nat)
| ev_free_memory (h : nat).

Record dev_state := {
  ds_next : nat;                               (* next fresh handle *)
  ds_buffers : gmap nat buffer_obj;            (* live vk::Buffer objects *)
  ds_memories : gmap nat memory_obj;           (* live vk::DeviceMemory *)
  ds_images : gmap nat image_obj;              (* live vk::Image objects *)
  ds_views : gmap nat nat;                     (* live vk::ImageView -> image *)
  ds_command_buffers : gmap nat (list command);(* allocated command buffers *)
  ds_queue : list nat;                         (* submitted, not yet executed *)
  ds_static_buffers : list device_buffer;      (* m_static_buffers *)
  ds_textures : list device_image;             (* m_textures *)
  ds_log : list event                          (* the calls made, in order *)
}.

Definition mk_state next bufs mems imgs views cbs queue sbs txs log : dev_state :=
  {| ds_next := next; ds_buffers := bufs; ds_memories := mems; ds_images := imgs;
     ds_views := views; ds_command_buffers := cbs; ds_queue := queue;
     ds_static_buffers := sbs; ds_textures := txs; ds_log := log |}.

(** A state-and-exception monad: an exception keeps the state reached so
    far, as a C++ throw keeps every object created before it. *)
Definition M (A : Type) : Type := dev_state -> (error + A) * dev_state.

Definition ret {A} (a : A) : M A := fun s => (inr a, s).
Definition bind {A B} (m : M A) (f : A -> M B) : M B :=
  fun s => match m s with
           | (inr a, s') => f a s'
           | (inl e, s') => (inl e, s')
           end.
Definition throw {A} (e : error) : M A := fun s => (inl e, s).
Definition lift {A} (r : error + A) : M A := fun s => (r, s).
Definition modify (f : dev_state -> dev_state) : M unit := fun s => (inr tt, f s).
Definition gets {A} (f : dev_state -> A) : M A := fun s => (inr (f s), s).

Notation "'let*' x ':=' m 'in' k" := (bind m (fun x => k))
  (at level 200, x name, m at level 100, k at level 200).

(** *** Vulkan calls on the device state *)

Definition log_event (e : event) : M unit :=
  modify (fun s => mk_state (ds_next s) (ds_buffers s) (ds_memories s) (ds_images s)
                     (ds_views s) (ds_command_buffers s) (ds_queue s)
                     (ds_static_buffers s) (ds_textures s) (ds_log s ++ [e])).

Definition fresh_handle : M nat :=
  fun s => (inr (ds_next s),
            mk_state (S (ds_next s)) (ds_buffers s) (ds_memories s) (ds_images s)
              (ds_views s) (ds_command_buffers s) (ds_queue s)
              (ds_static_buffers s) (ds_textures s) (ds_log s)).

Definition set_buffers (f : gmap nat buffer_obj -> gmap nat buffer_obj) : M unit :=
  modify (fun s => mk_state (ds_next s) (f (ds_buffers s)) (ds_memories s) (ds_images s)
                     (ds_views s) (ds_command_buffers s) (ds_queue s)
                     (ds_static_buffers s) (ds_textures s) (ds_log s)).

Definition set_memories (f : gmap nat memory_obj -> gmap nat memory_obj) : M unit :=
  modify (fun s => mk_state (ds_next s) (ds_buffers s) (f (ds_memories s)) (ds_images s)
                     (ds_views s) (ds_command_buffers s) (ds_queue s)
                     (ds_static_buffers s) (ds_textures s) (ds_log s)).

Definition set_images (f : gmap nat image_obj -> gmap nat image_obj) : M unit :=
  modify (fun s => mk_state (ds_next s) (ds_buffers s) (ds_memories s) (f (ds_images s))
                     (ds_views s) (ds_command_buffers s) (ds_queue s)
                     (ds_static_buffers s) (ds_textures s) (ds_log s)).

Definition set_views (f : gmap nat nat -> gmap nat nat) : M unit :=
  modify (fun s => mk_state (ds_next s) (ds_buffers s) (ds_memories s) (ds_images s)
                     (f (ds_views s)) (ds_command_buffers s) (ds_queue s)
                     (ds_static_buffers s) (ds_textures s) (ds_log s)).

Definition set_command_buffers (f : gmap nat (list command) -> gmap nat (list command))
    : M unit :=
  modify (fun s => mk_state (ds_next s) (ds_buffers s) (ds_memories s) (ds_images s)
                     (ds_views s) (f (ds_command_buffers s)) (ds_queue s)
                     (ds_static_buffers s) (ds_textures s) (ds_log s)).

Definition set_queue (q : list nat) : M unit :=
  modify (fun s => mk_state (ds_next s) (ds_buffers s) (ds_memories s) (ds_images s)
                     (ds_views s) (ds_command_buffers s) q
                     (ds_static_buffers s) (ds_textures s) (ds_log s)).

(** [m_device.createBuffer] *)
Definition createBuffer (size usage : Z) : M nat :=
  let* h := fresh_handle in
  let* _ := set_buffers (insert h {| bo_size := size; bo_usage := usage; bo_memory := None |}) in
  let* _ := log_event (ev_create_buffer h usage size) in
  ret h.

(** [m_device.getBufferMemoryRequirements] *)
Definition getBufferMemoryRequirements (di : device_info) (b : nat) : M (Z * Z) :=
  gets (fun s => match ds_buffers s !! b with
                 | Some bo => di_buffer_requirements di (bo_usage bo) (bo_size bo)
                 | None => (0, 0)
                 end).

(** [m_device.allocateMemory]: vulkan.hpp throws when the heap cannot
    satisfy the allocation; fresh memory reads as zeros in the model. *)
Definition allocateMemory (di : device_info) (size : Z) (memory_type : nat) : M nat :=
  if negb (di_allocation_succeeds di memory_type size)
  then throw (vk_system_error "ErrorOutOfDeviceMemory")
  else
  let* h := fresh_handle in
  let* _ := set_memories (insert h {| mo_type := memory_type; mo_size := size;
                                      mo_bytes := repeat Byte.x00 (Z.to_nat size) |}) in
  let* _ := log_event (ev_allocate_memory h memory_type size) in
  ret h.

(** [m_device.bindBufferMemory(b, m, 0)] *)
Definition bindBufferMemory (b m : nat) : M unit :=
  let* _ := set_buffers (alter (fun bo => {| bo_size := bo_size bo; bo_usage := bo_usage bo;
                                             bo_memory := Some m |}) b) in
  log_event (ev_bind_memory b m).

(** Writing [bytes] at offset [offset] of an allocation. *)
Definition write_bytes (offset : nat) (bytes old : list Byte.byte) : list Byte.byte :=
  take offset old ++ bytes ++ drop (offset + length bytes) old.

Definition set_memory_bytes (m : nat) (offset : nat) (bytes : list Byte.byte) : M unit :=
  set_memories (alter (fun mo => {| mo_type := mo_type mo; mo_size := mo_size mo;
                                    mo_bytes := write_bytes offset bytes (mo_bytes mo) |}) m).

(** [mapMemory(m, 0, size)], [memcpy(mapped, data, size)], [unmapMemory(m)] *)
Definition map_copy_unmap (m : nat) (data : list Byte.byte) : M unit :=
  let* _ := log_event (ev_map_memory m (Z.of_nat (length data))) in
  let* _ := set_memory_bytes m 0 data in
  let* _ := log_event (ev_memcpy m data) in
  log_event (ev_unmap_memory m).

Definition destroyBuffer (b : nat) : M unit :=
  let* _ := set_buffers (delete b) in log_event (ev_destroy_buffer b).

Definition freeMemory (m : nat) : M unit :=
  let* _ := set_memories (delete m) in log_event (ev_free_memory m).

(** The memory bound to a buffer and the bytes it holds *)
Definition buffer_memory (s : dev_state) (b : nat) : option memory_obj :=
  match ds_buffers s !! b with
  | Some {| bo_memory := Some m |} => ds_memories s !! m
  | _ => None
  end.

Definition buffer_contents (s : dev_state) (b : nat) : option (list Byte.byte) :=
  match ds_buffers s !! b, buffer_memory s b with
  | Some bo, Some mo => Some (take (Z.to_nat (bo_size bo)) (mo_bytes mo))
  | _, _ => None
  end.

(** Execution of one recorded command by the queue.  Only the buffer copy
    changes memory contents in this model; image contents are not modelled. *)
Definition execute_command (s : dev_state) (c : command) : dev_state :=
  match c with
  | cmd_copy_buffer src dst size =>
      match buffer_memory s src, ds_buffers s !! dst with
      | Some src_mo, Some {| bo_memory := Some dst_m |} =>
          let bytes := take (Z.to_nat size) (mo_bytes src_mo) in
          mk_state (ds_next s) (ds_buffers s)
            (alter (fun mo => {| mo_type := mo_type mo; mo_size := mo_size mo;
                                 mo_bytes := write_bytes 0 bytes (mo_bytes mo) |})
                   dst_m (ds_memories s))
            (ds_images s) (ds_views s) (ds_command_buffers s) (ds_queue s)
            (ds_static_buffers s) (ds_textures s) (ds_log s)
      | _, _ => s
      end
  | cmd_pipeline_barrier _ _ _ => s
  | cmd_copy_buffer_to_image _ _ => s
  end.

Definition execute_command_buffer (s : dev_state) (cb : nat) : dev_state :=
  foldl execute_command s (default [] (ds_command_buffers s !! cb)).

(** [m_queue.waitIdle()]: every submitted command buffer has executed. *)
Definition queue_waitIdle : M unit :=
  let* _ := modify (fun s => foldl execute_command_buffer s (ds_queue s)) in
  let* _ := set_queue [] in
  log_event ev_queue_wait_idle.

(** [m_queue.submit(cb)] *)
Definition queue_submit (cb : nat) : M unit :=
  let* q := gets ds_queue in
  let* _ := set_queue (q ++ [cb]) in
  log_event (ev_submit cb).

Definition record (cb : nat) (c : command) : M unit :=
  let* _ := set_command_buffers (alter (fun l => l ++ [c]) cb) in
  log_event (ev_record cb c).

(** *** The application's upload helpers *)

Section Upload.
Variable di : device_info.

(** [application::create_device_buffer] *)
Definition create_device_buffer (flags sizeof_data memory_properties : Z)
    : M device_buffer :=
  let* b := createBuffer sizeof_data flags in
  let* reqs := getBufferMemoryRequirements di b in
  let* memoryTypeIndex :=
    lift (get_memory_type (di_memory_types di) (snd reqs) memory_properties) in
  let* m := allocateMemory di (fst reqs) memoryTypeIndex in
  let* _ := bindBufferMemory b m in
  ret {| db_buffer := b; db_device_memory := m |}.

(** [application::cleanup_device_buffer] *)
Definition cleanup_device_buffer (b : device_buffer) : M unit :=
  let* _ := destroyBuffer (db_buffer b) in
  freeMemory (db_device_memory b).

(** [application::create_one_time_command_buffer] *)
Definition create_one_time_command_buffer : M nat :=
  let* cb := fresh_handle in
  let* _ := set_command_buffers (insert cb []) in
  let* _ := log_event (ev_allocate_command_buffer cb) in
  ret cb.

(** [application::finish_one_time_command_buffer] *)
Definition finish_one_time_command_buffer (cb : nat) : M unit :=
  let* _ := log_event (ev_end_command_buffer cb) in
  let* _ := queue_submit cb in
  queue_waitIdle.

(** [application::cleanup_one_time_command_buffer] *)
Definition cleanup_one_time_command_buffer (cb : nat) : M unit :=
  let* _ := set_command_buffers (delete cb) in
  log_event (ev_free_command_buffer cb).

Definition push_static_buffer (b : device_buffer) : M nat :=
  fun s => (inr (length (ds_static_buffers s)),
            mk_state (ds_next s) (ds_buffers s) (ds_memories s) (ds_images s)
              (ds_views s) (ds_command_buffers s) (ds_queue s)
              (ds_static_buffers s ++ [b]) (ds_textures s) (ds_log s)).

(** [application::create_static_buffer(flags, data, sizeof_data)]; the
    returned iterator is the index of the new element of [m_static_buffers]. *)
Definition create_static_buffer (flags : Z) (data : list Byte.byte) : M nat :=
  let sizeof_data := Z.of_nat (length data) in
  let* staging_buffer :=
    create_device_buffer eTransferSrc sizeof_data staging_memory_properties in
  let* _ := map_copy_unmap (db_device_memory staging_buffer) data in
  let* optimized_buffer :=
    create_device_buffer (Z.lor flags eTransferDst) sizeof_data optimized_memory_properties in
  let* copy_command_buffer := create_one_time_command_buffer in
  let* _ := record copy_command_buffer
              (cmd_copy_buffer (db_buffer staging_buffer) (db_buffer optimized_buffer)
                 sizeof_data) in
  let* _ := finish_one_time_command_buffer copy_command_buffer in
  let* _ := cleanup_one_time_command_buffer copy_command_buffer in
  let* _ := cleanup_device_buffer staging_buffer in
  push_static_buffer optimized_buffer.

(** What [gli::load] yields: [None] for an empty texture. *)
Record gli_texture := {
  tx_data : list Byte.byte;
  tx_target : Z;           (* gli::target; TARGET_2D = 2 *)
  tx_extent : Z * Z;       (* x, y *)
  tx_levels : Z;
  tx_layers : Z;
  tx_format : Z
}.

Definition TARGET_2D : Z := 2.

(** [m_device.createImage]; only the 2D case fills in the extent. *)
Definition createImage (t : gli_texture) : M nat :=
  let* h := fresh_handle in
  let '(w, hgt) := if tx_target t =? TARGET_2D then tx_extent t else (0, 0) in
  let* _ := set_images (insert h {| io_width := w; io_height := hgt;
                                    io_format := tx_format t; io_memory := None |}) in
  let* _ := log_event (ev_create_image h) in
  ret h.

Definition getImageMemoryRequirements (i : nat) : M (Z * Z) :=
  gets (fun s => match ds_images s !! i with
                 | Some io => di_image_requirements di (io_width io) (io_height io) (io_format io)
                 | None => (0, 0)
                 end).

Definition bindImageMemory (i m : nat) : M unit :=
  let* _ := set_images (alter (fun io => {| io_width := io_width io; io_height := io_height io;
                                            io_format := io_format io;
                                            io_memory := Some m |}) i) in
  log_event (ev_bind_memory i m).

Definition createImageView (i : nat) : M nat :=
  let* h := fresh_handle in
  let* _ := set_views (insert h i) in
  let* _ := log_event (ev_create_image_view h i) in
  ret h.

Definition push_texture (t : device_image) : M nat :=
  fun s => (inr (length (ds_textures s)),
            mk_state (ds_next s) (ds_buffers s) (ds_memories s) (ds_images s)
              (ds_views s) (ds_command_buffers s) (ds_queue s)
              (ds_static_buffers s) (ds_textures s ++ [t]) (ds_log s)).

(** vk::ImageLayout *)
Definition eLayoutUndefined : Z := 0.
Definition eTransferDstOptimal : Z := 7.
Definition eShaderReadOnlyOptimal : Z := 5.

(** [application::create_texture(file_name)], with [gli::load(file_name)]
    given as [loaded]. *)
Definition create_texture (file_name : string) (loaded : option gli_texture) : M nat :=
  match loaded with
  | None => throw (file_exception file_name)
  | Some t =>
      let size := Z.of_nat (length (tx_data t)) in
      let* staging_buffer :=
        create_device_buffer eTransferSrc size staging_memory_properties in
      let* _ := map_copy_unmap (db_device_memory staging_buffer) (tx_data t) in
      let* image := createImage t in
      let* reqs := getImageMemoryRequirements image in
      let* memoryTypeIndex :=
        lift (get_memory_type (di_memory_types di) (snd reqs) optimized_memory_properties) in
      let* m := allocateMemory di (fst reqs) memoryTypeIndex in
      let* _ := bindImageMemory image m in
      let* view := createImageView image in
      let* cb := create_one_time_command_buffer in
      let* _ := record cb (cmd_pipeline_barrier image eLayoutUndefined eTransferDstOptimal) in
      let* _ := record cb (cmd_copy_buffer_to_image (db_buffer staging_buffer) image) in
      let* _ := record cb (cmd_pipeline_barrier image eTransferDstOptimal eShaderReadOnlyOptimal) in
      let* _ := finish_one_time_command_buffer cb in
      let* _ := cleanup_one_time_command_buffer cb in
      let* _ := cleanup_device_buffer staging_buffer in
      push_texture {| di_image := image; di_device_memory := m; di_view := view |}
  end.

End Upload.

(* ------------------------------------------------------------------ *)
(** ** The frame loop: [application::per_frame_init] and [application::draw]

    Fences and the GPU's progress.  A submitted command buffer stays in
    flight until the GPU completes it, which signals the fence given to
    [submit]; [waitForFences] with an infinite timeout returns once the fence
    is signaled, which for an unsignaled fence means the GPU has completed
    the work that signals it. *)

Inductive fence_id :=
| next_image_ready
| command_fence (slot : nat).

Record draw_record := {
  dr_vbo : nat; dr_ibo : nat;
  dr_index_count : Z; dr_first_index : Z; dr_vertex_offset : Z
}.

Inductive frame_event :=
| fe_create_fence (f : fence_id) (signaled : bool)
| fe_reset_fence (f : fence_id)
| fe_acquire (image : nat)
| fe_wait_fence (f : fence_id) (signaled_on_return : bool) (blocked : bool)
| fe_reset_command_buffer (slot : nat) (in_flight : bool)
| fe_begin (slot : nat)
| fe_begin_render_pass (slot : nat)
| fe_bind_pipeline (slot : nat)
| fe_map_uniform (slot : nat)
| fe_bind_geometry (slot vbo ibo : nat)
| fe_write_uniform (slot : nat) (offset : Z)
| fe_bind_descriptor (slot : nat) (offset : Z)
| fe_bind_immutable (slot : nat)
| fe_draw_indexed (slot : nat) (index_count first_index vertex_offset : Z)
| fe_unmap_uniform (slot : nat)
| fe_end_render_pass (slot : nat)
| fe_end (slot : nat)
| fe_submit (slot : nat) (f : fence_id)
| fe_present (image : nat).

Record frame_state := {
  fs_fences : list bool;       (* m_command_fences: signaled? *)
  fs_in_flight : list bool;    (* m_command_buffers: executing on the GPU? *)
  fs_image_ready : bool;       (* m_next_image_ready: signaled? *)
  fs_trace : list frame_event
}.

Definition fs_emit (s : frame_state) (e : frame_event) : frame_state :=
  {| fs_fences := fs_fences s; fs_in_flight := fs_in_flight s;
     fs_image_ready := fs_image_ready s; fs_trace := fs_trace s ++ [e] |}.

Definition fence_signaled (s : frame_state) (f : fence_id) : bool :=
  match f with
  | next_image_ready => fs_image_ready s
  | command_fence i => default false (fs_fences s !! i)
  end.

Definition set_fence (s : frame_state) (f : fence_id) (b : bool) : frame_state :=
  match f with
  | next_image_ready =>
      {| fs_fences := fs_fences s; fs_in_flight := fs_in_flight s;
         fs_image_ready := b; fs_trace := fs_trace s |}
  | command_fence i =>
      {| fs_fences := <[i := b]> (fs_fences s); fs_in_flight := fs_in_flight s;
         fs_image_ready := fs_image_ready s; fs_trace := fs_trace s |}
  end.

Definition set_in_flight (s : frame_state) (i : nat) (b : bool) : frame_state :=
  {| fs_fences := fs_fences s; fs_in_flight := <[i := b]> (fs_in_flight s);
     fs_image_ready := fs_image_ready s; fs_trace := fs_trace s |}.

(** The GPU finishes the command buffer of [slot] and signals its fence. *)
Definition gpu_complete (s : frame_state) (slot : nat) : frame_state :=
  if default false (fs_in_flight s !! slot)
  then set_fence (set_in_flight s slot false) (command_fence slot) true
  else s.

(** [waitForFences(f, VK_FALSE, infinite_wait)] *)
Definition wait_for_fence (s : frame_state) (f : fence_id) : frame_state :=
  let blocked := negb (fence_signaled s f) in
  let s' := if fence_signaled s f then s
            else match f with
                 | next_image_ready => set_fence s next_image_ready true
                 | command_fence i => gpu_complete s i
                 end in
  fs_emit s' (fe_wait_fence f (fence_signaled s' f) blocked).

Definition reset_fence (s : frame_state) (f : fence_id) : frame_state :=
  fs_emit (set_fence s f false) (fe_reset_fence f).

(** vk::FenceCreateFlagBits::eSignaled *)
Definition eSignaled : Z := 1.

(** The fence part of [application::per_frame_init]: [frames_in_flight]
    command buffers (none in flight) and as many fences created with
    [fence_create_info.flags = eSignaled]. *)
Definition per_frame_init (frames_in_flight : nat) : frame_state :=
  let fence_create_flags := eSignaled in
  let create_signaled := negb (Z.land fence_create_flags eSignaled =? 0) in
  {| fs_fences := repeat create_signaled frames_in_flight;
     fs_in_flight := repeat false frames_in_flight;
     fs_image_ready := false;
     fs_trace := map (fun i => fe_create_fence (command_fence i) create_signaled)
                     (seq 0 frames_in_flight) |}.

(** Three draws of one frame: a 36-index cube and two smaller meshes. *)
Definition example_draws : list draw_record :=
  [{| dr_vbo := 0; dr_ibo := 1; dr_index_count := 36; dr_first_index := 0; dr_vertex_offset := 0 |};
   {| dr_vbo := 0; dr_ibo := 1; dr_index_count := 6; dr_first_index := 36; dr_vertex_offset := 0 |};
   {| dr_vbo := 2; dr_ibo := 3; dr_index_count := 3; dr_first_index := 0; dr_vertex_offset := 24 |}].

(** The per-draw loop of [application::draw].  Each iteration stores the
    draw's matrix at [ubo_data + ubo_offset] of the mapped uniform buffer
    ([fe_write_uniform]).  The source maps [per_frame_ubo_size] bytes and does
    not check the offset; a store with [ubo_offset + sizeof_mat4 >
    per_frame_ubo_size] is undefined behaviour, which this model does not
    represent (it records the store like any other).  The properties about
    these writes therefore assume [ubo_writes_in_bounds]. *)
Fixpoint record_draws (slot : nat) (ubo_min_field_align : Z) (draws : list draw_record)
    (ubo_offset : Z) (s : frame_state) : frame_state :=
  match draws with
  | [] => s
  | d :: draws' =>
      let s := fs_emit s (fe_bind_geometry slot (dr_vbo d) (dr_ibo d)) in
      let s := fs_emit s (fe_write_uniform slot ubo_offset) in
      let dynamic_ubo_offset := ubo_offset in
      let ubo_offset' := align_up (ubo_offset + sizeof_mat4) ubo_min_field_align in
      let s := fs_emit s (fe_bind_descriptor slot dynamic_ubo_offset) in
      let s := fs_emit s (fe_bind_immutable slot) in
      let s := fs_emit s (fe_draw_indexed slot (dr_index_count d) (dr_first_index d)
                                          (dr_vertex_offset d)) in
      record_draws slot ubo_min_field_align draws' ubo_offset' s
  end.

(** [application::draw]; [acquired_image] is what [acquireNextImageKHR]
    returns, which also signals [m_next_image_ready] once the image is
    ready. *)
Definition draw (ubo_min_field_align : Z) (draws : list draw_record)
    (acquired_image : nat) (s : frame_state) : frame_state :=
  let s := reset_fence s next_image_ready in
  let s := fs_emit s (fe_acquire acquired_image) in
  let command_fence_ := command_fence acquired_image in
  let s := wait_for_fence s command_fence_ in
  let s := reset_fence s command_fence_ in
  let s := fs_emit s (fe_reset_command_buffer acquired_image
                        (default false (fs_in_flight s !! acquired_image))) in
  let s := fs_emit s (fe_begin acquired_image) in
  let s := fs_emit s (fe_begin_render_pass acquired_image) in
  let s := fs_emit s (fe_bind_pipeline acquired_image) in
  let s := fs_emit s (fe_map_uniform acquired_image) in
  let s := record_draws acquired_image ubo_min_field_align draws 0 s in
  let s := fs_emit s (fe_unmap_uniform acquired_image) in
  let s := fs_emit s (fe_end_render_pass acquired_image) in
  let s := fs_emit s (fe_end acquired_image) in
  let s := wait_for_fence s next_image_ready in
  let s := set_in_flight s acquired_image true in
  let s := fs_emit s (fe_submit acquired_image command_fence_) in
  fs_emit s (fe_present acquired_image).

(** The main loop: before every tick the GPU may asynchronously complete
    some of the work in flight (the slots listed); [draw] then runs.  The
    result keeps the trace of each tick separately. *)
Fixpoint run_frames (ubo_min_field_align : Z) (draws : list draw_record)
    (ticks : list (list nat * nat)) (s : frame_state) : list (list frame_event) :=
  match ticks with
  | [] => []
  | (completed, acquired) :: ticks' =>
      let s0 := foldl gpu_complete s completed in
      let s0 := {| fs_fences := fs_fences s0; fs_in_flight := fs_in_flight s0;
                   fs_image_ready := fs_image_ready s0; fs_trace := [] |} in
      let s1 := draw ubo_min_field_align draws acquired s0 in
      fs_trace s1 :: run_frames ubo_min_field_align draws ticks' s1
  end.

(** The events of a tick that touch a slot's command buffer, fence or
    uniform buffer. *)
Definition slot_access (slot : nat) (e : frame_event) : bool :=
  match e with
  | fe_reset_fence (command_fence i) => Nat.eqb i slot
  | fe_reset_command_buffer i _ | fe_begin i | fe_write_uniform i _ => Nat.eqb i slot
  | _ => false
  end.

(* ------------------------------------------------------------------ *)
(** ** Teardown: [application::cleanup] and the [*_cleanup] functions

    Which handles of the application are non-null, and how many elements
    each handle vector holds. *)

Record app_objects := {
  app_window : bool;
  app_instance : bool;
  app_debug_report_callback : bool;
  app_surface : bool;
  app_device : bool;
  app_swap_chain : bool;
  app_next_image_ready : bool;
  app_swap_chain_color_images : nat;
  app_swap_chain_depth_images : nat;
  app_simple_frag : bool;
  app_simple_vert : bool;
  app_simple_render_pass : bool;
  app_simple_framebuffers : nat;
  app_bilinear_sampler : bool;
  app_command_pool : bool;
  app_command_buffers : nat;
  app_uniform_buffers : nat;
  app_mutable_descriptor_pool : bool;
  app_command_fences : nat;
  app_simple_pipeline : bool;
  app_simple_pipeline_layout : bool;
  app_simple_mutable_set_layout : bool;
  app_simple_immutable_set_layout : bool;
  app_static_buffers : nat;
  app_immutable_descriptor_pool : bool;
  app_textures : nat
}.

Inductive vk_object :=
| o_window | o_instance | o_debug_report_callback | o_surface | o_device
| o_swap_chain | o_next_image_ready
| o_swap_chain_color_view (i : nat)
| o_depth_view (i : nat) | o_depth_image (i : nat) | o_depth_memory (i : nat)
| o_simple_frag | o_simple_vert | o_simple_render_pass | o_framebuffer (i : nat)
| o_bilinear_sampler | o_command_pool | o_command_buffers
| o_uniform_buffer (i : nat) | o_uniform_memory (i : nat)
| o_mutable_descriptor_pool | o_command_fence (i : nat)
| o_simple_pipeline | o_simple_pipeline_layout
| o_simple_mutable_set_layout | o_simple_immutable_set_layout
| o_static_buffer (i : nat) | o_static_memory (i : nat)
| o_immutable_descriptor_pool
| o_texture_view (i : nat) | o_texture_image (i : nat) | o_texture_memory (i : nat).

Inductive teardown_event :=
| td_device_wait_idle
| td_destroy (o : vk_object)
| td_glfw_terminate.

Definition when (b : bool) (l : list teardown_event) : list teardown_event :=
  if b then l else [].

Definition for_each (n : nat) (f : nat -> list teardown_event) : list teardown_event :=
  flat_map f (seq 0 n).

Definition textures_cleanup (a : app_objects) : list teardown_event :=
  when (app_immutable_descriptor_pool a) [td_destroy o_immutable_descriptor_pool]
  ++ for_each (app_textures a) (fun i =>
       [td_destroy (o_texture_view i); td_destroy (o_texture_image i);
        td_destroy (o_texture_memory i)]).

Definition static_buffers_cleanup (a : app_objects) : list teardown_event :=
  for_each (app_static_buffers a) (fun i =>
    [td_destroy (o_static_buffer i); td_destroy (o_static_memory i)]).

Definition pipeline_cleanup (a : app_objects) : list teardown_event :=
  when (app_simple_pipeline a) [td_destroy o_simple_pipeline]
  ++ when (app_simple_pipeline_layout a) [td_destroy o_simple_pipeline_layout]
  ++ when (app_simple_mutable_set_layout a) [td_destroy o_simple_mutable_set_layout]
  ++ when (app_simple_immutable_set_layout a) [td_destroy o_simple_immutable_set_layout].

Definition per_frame_cleanup (a : app_objects) : list teardown_event :=
  for_each (app_command_fences a) (fun i => [td_destroy (o_command_fence i)])
  ++ when (app_mutable_descriptor_pool a) [td_destroy o_mutable_descriptor_pool]
  ++ for_each (app_uniform_buffers a) (fun i =>
       [td_destroy (o_uniform_buffer i); td_destroy (o_uniform_memory i)])
  ++ when (negb (Nat.eqb (app_command_buffers a) 0)) [td_destroy o_command_buffers]
  ++ when (app_command_pool a) [td_destroy o_command_pool].

Definition sampler_cleanup (a : app_objects) : list teardown_event :=
  when (app_bilinear_sampler a) [td_destroy o_bilinear_sampler].

Definition render_pass_cleanup (a : app_objects) : list teardown_event :=
  for_each (app_simple_framebuffers a) (fun i => [td_destroy (o_framebuffer i)])
  ++ when (app_simple_render_pass a) [td_destroy o_simple_render_pass].

Definition shaders_cleanup (a : app_objects) : list teardown_event :=
  when (app_simple_frag a) [td_destroy o_simple_frag]
  ++ when (app_simple_vert a) [td_destroy o_simple_vert].

Definition vk_cleanup (a : app_objects) : list teardown_event :=
  when (app_next_image_ready a) [td_destroy o_next_image_ready]
  ++ for_each (app_swap_chain_depth_images a) (fun i =>
       [td_destroy (o_depth_view i); td_destroy (o_depth_image i);
        td_destroy (o_depth_memory i)])
  ++ for_each (app_swap_chain_color_images a) (fun i =>
       [td_destroy (o_swap_chain_color_view i)])
  ++ when (app_swap_chain a) [td_destroy o_swap_chain]
  ++ when (app_device a) [td_destroy o_device]
  ++ when (app_surface a) [td_destroy o_surface]
  ++ when (app_debug_report_callback a) [td_destroy o_debug_report_callback]
  ++ when (app_instance a) [td_destroy o_instance].

Definition glfw_cleanup (a : app_objects) : list teardown_event :=
  when (app_window a) [td_destroy o_window] ++ [td_glfw_terminate].

Definition cleanup (a : app_objects) : list teardown_event :=
  when (app_device a) [td_device_wait_idle]
  ++ textures_cleanup a ++ static_buffers_cleanup a ++ pipeline_cleanup a
  ++ per_frame_cleanup a ++ sampler_cleanup a ++ render_pass_cleanup a
  ++ shaders_cleanup a ++ vk_cleanup a ++ glfw_cleanup a.

(** Which object must still exist while another one does, following
    Vulkan's object-lifetime rules for the objects the application creates:
    every child of the device before the device; the device, surface and
    debug callback before the instance; a swap chain before its surface and
    the surface before its window; image views before their images;
    framebuffers before their views and render pass; a pipeline before its
    layout, render pass and shaders, a layout before its set layouts;
    command buffers before their pool; a descriptor pool (with its sets)
    before the resources the sets refer to. *)
Definition device_child (o : vk_object) : bool :=
  match o with
  | o_window | o_instance | o_debug_report_callback | o_surface | o_device => false
  | _ => true
  end.

Definition depends_on (child parent : vk_object) : bool :=
  match child, parent with
  | _, o_device => device_child child
  | (o_device | o_surface | o_debug_report_callback), o_instance => true
  | o_swap_chain, o_surface => true
  | o_surface, o_window => true
  | o_swap_chain_color_view _, o_swap_chain => true
  | o_depth_view i, o_depth_image j => Nat.eqb i j
  | o_texture_view i, o_texture_image j => Nat.eqb i j
  | o_framebuffer _, (o_simple_render_pass | o_swap_chain_color_view _ | o_depth_view _) => true
  | o_simple_pipeline, (o_simple_pipeline_layout | o_simple_render_pass
                        | o_simple_frag | o_simple_vert) => true
  | o_simple_pipeline_layout, (o_simple_mutable_set_layout
                               | o_simple_immutable_set_layout) => true
  | o_command_buffers, o_command_pool => true
  | o_mutable_descriptor_pool, o_uniform_buffer _ => true
  | o_immutable_descriptor_pool, (o_texture_view _ | o_bilinear_sampler) => true
  | _, _ => false
  end.

(* ------------------------------------------------------------------ *)
(** ** Concrete adapters for the selection examples

    [vk_init] requires the one device extension VK_KHR_swapchain. *)

Definition VK_KHR_SWAPCHAIN_EXTENSION_NAME : string := "VK_KHR_swapchain".
Definition required_device_extensions : list string := [VK_KHR_SWAPCHAIN_EXTENSION_NAME].

(** An adapter whose every queue family can present, with a BGRA8 sRGB
    surface format and FIFO plus mailbox present modes. *)
Definition example_adapter (h : positive) (extensions : list string)
    (families : list Z) (device_type : Z) : physical_device :=
  {| pd_handle := h; pd_extensions := extensions; pd_queue_families := families;
     pd_surface_support := map (fun _ => true) families;
     pd_surface_formats := [{| sf_format := eB8G8R8A8Unorm; sf_colorSpace := eSrgbNonlinear |}];
     pd_present_modes := [0; eMailbox]; pd_deviceType := device_type |}.

(** Queue flags 7: graphics, compute and transfer; 1: graphics only. *)
Definition no_swapchain_gpu : physical_device :=
  example_adapter 1 ["VK_KHR_maintenance1"] [7] eDiscreteGpu.
Definition integrated_gpu : physical_device :=
  example_adapter 2 [VK_KHR_SWAPCHAIN_EXTENSION_NAME] [7] eIntegratedGpu.
Definition discrete_gpu : physical_device :=
  example_adapter 3 [VK_KHR_SWAPCHAIN_EXTENSION_NAME] [1; 7] eDiscreteGpu.
Definition second_integrated_gpu : physical_device :=
  example_adapter 4 ["VK_KHR_maintenance1"; VK_KHR_SWAPCHAIN_EXTENSION_NAME] [7] eIntegratedGpu.
Definition graphics_only_gpu : physical_device :=
  example_adapter 5 [VK_KHR_SWAPCHAIN_EXTENSION_NAME] [1] eDiscreteGpu.
Definition fifo_only_gpu : physical_device :=
  {| pd_handle := 6; pd_extensions := [VK_KHR_SWAPCHAIN_EXTENSION_NAME];
     pd_queue_families := [7]; pd_surface_support := [true];
     pd_surface_formats := [{| sf_format := eB8G8R8A8Unorm; sf_colorSpace := eSrgbNonlinear |}];
     pd_present_modes := [0]; pd_deviceType := eDiscreteGpu |}.

(* ------------------------------------------------------------------ *)
(** ** A device state and a device for the upload examples *)

Definition empty_dev_state : dev_state := mk_state 0 ∅ ∅ ∅ ∅ ∅ [] [] [] [].

(** Memory type 0 is device-local, type 1 host-visible and host-coherent;
    every buffer and image may use both; the device-local heap is full. *)
Definition vram_full_device : device_info :=
  {| di_memory_types := [eDeviceLocal; Z.lor eHostVisible eHostCoherent];
     di_buffer_requirements := fun _ size => (size, 3);
     di_image_requirements := fun w h _ => (w * h * 4, 3);
     di_allocation_succeeds := fun memory_type _ => Nat.eqb memory_type 1 |}.

(** The same device with room in its device-local heap. *)
Definition roomy_device : device_info :=
  {| di_memory_types := [eDeviceLocal; Z.lor eHostVisible eHostCoherent];
     di_buffer_requirements := fun _ size => (size, 3);
     di_image_requirements := fun w h _ => (w * h * 4, 3);
     di_allocation_succeeds := fun _ _ => true |}.

(** A five-byte payload and a 1x1 RGBA texture *)
Definition example_bytes : list Byte.byte := [Byte.x01; Byte.x02; Byte.x03; Byte.x04; Byte.x05].

Definition example_texture : gli_texture :=
  {| tx_data := [Byte.x01; Byte.x02; Byte.x03; Byte.x04]; tx_target := TARGET_2D;
     tx_extent := (1, 1); tx_levels := 1; tx_layers := 1; tx_format := 44 |}.

(** The fence of each slot is signaled exactly when the slot's command
    buffer is not in flight. *)
Definition fences_track (n : nat) (s : frame_state) : Prop :=
  fs_fences s = negb <$> fs_in_flight s /\ length (fs_in_flight s) = n.

(** A slow GPU over two slots: nothing completes between the three ticks,
    the third of which reuses slot 0. *)
Definition slow_gpu_ticks : list (list nat * nat) := [([], 0%nat); ([], 1%nat); ([], 0%nat)].

(** The order in which [application::cleanup] reaches each object: a phase
    (the call and the statement within it) and, for the objects of a loop,
    the position within the loop. *)
Definition teardown_rank (o : vk_object) : nat * nat :=
  (match o with
  | o_immutable_descriptor_pool => (1, 0)
  | o_texture_view i => (2, 3 * i) | o_texture_image i => (2, 3 * i + 1)
  | o_texture_memory i => (2, 3 * i + 2)
  | o_static_buffer i => (3, 2 * i) | o_static_memory i => (3, 2 * i + 1)
  | o_simple_pipeline => (4, 0) | o_simple_pipeline_layout => (5, 0)
  | o_simple_mutable_set_layout => (6, 0) | o_simple_immutable_set_layout => (7, 0)
  | o_command_fence i => (8, i) | o_mutable_descriptor_pool => (9, 0)
  | o_uniform_buffer i => (10, 2 * i) | o_uniform_memory i => (10, 2 * i + 1)
  | o_command_buffers => (11, 0) | o_command_pool => (12, 0)
  | o_bilinear_sampler => (13, 0)
  | o_framebuffer i => (14, i) | o_simple_render_pass => (15, 0)
  | o_simple_frag => (16, 0) | o_simple_vert => (17, 0)
  | o_next_image_ready => (18, 0)
  | o_depth_view i => (19, 3 * i) | o_depth_image i => (19, 3 * i + 1)
  | o_depth_memory i => (19, 3 * i + 2)
  | o_swap_chain_color_view i => (20, i) | o_swap_chain => (21, 0)
  | o_device => (22, 0) | o_surface => (23, 0)
  | o_debug_report_callback => (24, 0) | o_instance => (25, 0)
  | o_window => (26, 0)
  end)%nat.

Definition event_rank (e : teardown_event) : nat * nat :=
  (match e with
  | td_device_wait_idle => (0, 0)
  | td_destroy o => teardown_rank o
  | td_glfw_terminate => (27, 0)
  end)%nat.

Definition rank_lt (x y : nat * nat) : Prop :=
  (fst x < fst y \/ fst x = fst y /\ snd x < snd y)%nat.

Definition event_le (e1 e2 : teardown_event) : Prop :=
  (fst (event_rank e1) < fst (event_rank e2)
   \/ fst (event_rank e1) = fst (event_rank e2) /\ snd (event_rank e1) <= snd (event_rank e2))%nat.

(** A stretch of the teardown whose events come in rank order, all within the
    phases [lo] to [hi]. *)
Definition teardown_block (lo hi : nat) (l : list teardown_event) : Prop :=
  StronglySorted event_le l /\ Forall (fun e => lo <= fst (event_rank e) <= hi)%nat l.

(** An application all of whose objects exist, with two of each kind of
    per-image, per-frame and loaded object. *)
Definition full_app : app_objects :=
  {| app_window := true; app_instance := true; app_debug_report_callback := true;
     app_surface := true; app_device := true; app_swap_chain := true;
     app_next_image_ready := true; app_swap_chain_color_images := 2;
     app_swap_chain_depth_images := 2; app_simple_frag := true; app_simple_vert := true;
     app_simple_render_pass := true; app_simple_framebuffers := 2;
     app_bilinear_sampler := true; app_command_pool := true; app_command_buffers := 2;
     app_uniform_buffers := 2; app_mutable_descriptor_pool := true; app_command_fences := 2;
     app_simple_pipeline := true; app_simple_pipeline_layout := true;
     app_simple_mutable_set_layout := true; app_simple_immutable_set_layout := true;
     app_static_buffers := 2; app_immutable_descriptor_pool := true; app_textures := 2 |}.

(* ------------------------------------------------------------------ *)
(** ** Views of the selection loop, the frame trace and the teardown order *)

(** The test of the queue-family loop on family [i] of a device. *)
Definition queue_family_ok (pd : physical_device) (i : nat) : bool :=
  let graphics_and_compute := Z.lor eGraphics eCompute in
  (Z.land (nth i (pd_queue_families pd) 0) graphics_and_compute =? graphics_and_compute)
  && default false (pd_surface_support pd !! i).

(** The uniform writes, descriptor binds and indexed draws of a trace, in
    order. *)
Definition uniform_write_of (e : frame_event) : option (nat * Z) :=
  match e with fe_write_uniform i o => Some (i, o) | _ => None end.
Definition descriptor_bind_of (e : frame_event) : option (nat * Z) :=
  match e with fe_bind_descriptor i o => Some (i, o) | _ => None end.
Definition indexed_draw_of (e : frame_event) : option (nat * Z * Z * Z) :=
  match e with fe_draw_indexed i c f v => Some (i, c, f, v) | _ => None end.

Definition event_lt (e1 e2 : teardown_event) : Prop :=
  rank_lt (event_rank e1) (event_rank e2).

(** A stretch of the teardown whose events come in strictly increasing rank
    order, all within the phases [lo] to [hi]. *)
Definition teardown_strict (lo hi : nat) (l : list teardown_event) : Prop :=
  StronglySorted event_lt l /\ Forall (fun e => lo <= fst (event_rank e) <= hi)%nat l.

(** Whether the loop body of [vk_create_device_objects] reaches the
    queue-family loop for a device, which assigns [queue_family_index]. *)
Definition reaches_queue_scan (required : list string) (pd : physical_device) : bool :=
  negb (bool_decide (pd_extensions pd = []))
  && Nat.eqb (found_extensions required pd) (length required)
  && negb (bool_decide (pd_queue_families pd = [])).

(** The value [queue_family_index] holds after the loop body has run over
    [pds], starting from [q]. *)
Definition last_queue_scan (required : list string) (q : Z) (pds : list physical_device) : Z :=
  foldl (fun q pd => if reaches_queue_scan required pd then find_queue_family pd else q) q pds.

(** A discrete adapter whose second family qualifies but which offers only
    FIFO presentation. *)
Definition fifo_only_two_family_gpu : physical_device :=
  {| pd_handle := 7; pd_extensions := [VK_KHR_SWAPCHAIN_EXTENSION_NAME];
     pd_queue_families := [1; 7]; pd_surface_support := [true; true];
     pd_surface_formats := [{| sf_format := eB8G8R8A8Unorm; sf_colorSpace := eSrgbNonlinear |}];
     pd_present_modes := [0]; pd_deviceType := eDiscreteGpu |}.

(* ------------------------------------------------------------------ *)
(** ** Loading a glTF scene: [gltf_load], [gltf_load_node] and
    [gltf_load_immutable_state]

    What a [tinygltf::Model] holds for the traversal: nodes with a mesh
    index, a camera index (-1 for none) and child indices; meshes as their
    primitives; the scenes as their root node indices.  Node transforms and
    camera projections (floating point) are not modelled. *)

Record gltf_primitive := { gp_indices : Z; gp_material : Z }.
Record gltf_node := { gn_mesh : Z; gn_camera : Z; gn_children : list Z }.
Record gltf_model := {
  gm_nodes : list gltf_node;
  gm_meshes : list (list gltf_primitive);
  gm_camera_count : nat;
  gm_scenes : list (list Z);
  gm_default_scene : Z
}.

(** What the loader can throw: [std::out_of_range] from [std::vector::at],
    the exhaustion of the stack by the recursion (a node graph with a
    cycle), or an exception of the application's own; and the undefined
    behaviour it can run into. *)
Inductive gltf_error :=
| gltf_out_of_range
| gltf_stack_overflow
| gltf_undefined_behaviour
| gltf_exception (e : error).

(** [v.at(i)] with an [int] index: a negative index converts to a huge
    [size_t] and is out of range as well. *)
Definition vec_at {A} (v : list A) (i : Z) : gltf_error + A :=
  if 0 <=? i then
    match v !! Z.to_nat i with Some x => inr x | None => inl gltf_out_of_range end
  else inl gltf_out_of_range.

(** A range-for loop whose body may throw *)
Fixpoint gltf_foldM {A B} (f : A -> B -> gltf_error + A) (a : A) (l : list B)
    : gltf_error + A :=
  match l with
  | [] => inr a
  | x :: l' => match f a x with inl e => inl e | inr a' => gltf_foldM f a' l' end
  end.

Section GltfLoad.
(** The application state the per-primitive work runs on, the loaded part of
    a [draw_record] and what a texture load yields. *)
Context {App Draw Tex : Type}.
(** [gltf_load_ibo] and [gltf_load_vbo] for one primitive *)
Variable load_draw : gltf_primitive -> App -> gltf_error + (Draw * App).
(** The material, texture and image lookups and [create_texture] for the
    base color texture of one primitive *)
Variable load_texture : gltf_primitive -> App -> gltf_error + (Tex * App).
Variable model : gltf_model.

(** [gltf_load_state]: the draws, each with its [immutable_state] (the
    index of its set in [simple_immutable_sets], [None] while null), the
    descriptor writes made (set index and texture) and [draw_index]. *)
Record gltf_load_state := {
  ls_app : App;
  ls_draws : list (Draw * option nat);
  ls_writes : list (nat * Tex);
  ls_draw_index : nat
}.

(** The mesh loop of [gltf_load_node]: one draw per primitive. *)
Definition load_primitive_draw (ls : gltf_load_state) (p : gltf_primitive)
    : gltf_error + gltf_load_state :=
  match load_draw p (ls_app ls) with
  | inl e => inl e
  | inr (d, app) =>
      inr {| ls_app := app; ls_draws := ls_draws ls ++ [(d, None)];
             ls_writes := ls_writes ls; ls_draw_index := ls_draw_index ls |}
  end.

(** [application::gltf_load_node]; [fuel] bounds the recursion depth. *)
Fixpoint gltf_load_node (fuel : nat) (node : gltf_node) (ls : gltf_load_state)
    : gltf_error + gltf_load_state :=
  match fuel with
  | O => inl gltf_stack_overflow
  | S fuel' =>
      let with_mesh :=
        if gn_mesh node =? -1 then inr ls
        else match vec_at (gm_meshes model) (gn_mesh node) with
             | inl e => inl e
             | inr mesh => gltf_foldM load_primitive_draw ls mesh
             end in
      match with_mesh with
      | inl e => inl e
      | inr ls =>
          let with_camera :=
            if gn_camera node =? -1 then inr ls
            else match vec_at (seq 0 (gm_camera_count model)) (gn_camera node) with
                 | inl e => inl e
                 | inr _ => inr ls
                 end in
          match with_camera with
          | inl e => inl e
          | inr ls =>
              gltf_foldM (fun ls node_index =>
                  match vec_at (gm_nodes model) node_index with
                  | inl e => inl e
                  | inr child_node => gltf_load_node fuel' child_node ls
                  end) ls (gn_children node)
          end
      end
  end.

(** The primitive loop of [gltf_load_immutable_state]: the set
    [simple_immutable_sets[draw_index]] is written with the texture and
    stored into [draws.at(draw_index)]. *)
Definition load_primitive_state (ls : gltf_load_state) (p : gltf_primitive)
    : gltf_error + gltf_load_state :=
  match load_texture p (ls_app ls) with
  | inl e => inl e
  | inr (tex, app) =>
      let immutable_state_set := ls_draw_index ls in
      let writes := ls_writes ls ++ [(immutable_state_set, tex)] in
      match ls_draws ls !! ls_draw_index ls with
      | None => inl gltf_out_of_range
      | Some (d, _) =>
          inr {| ls_app := app;
                 ls_draws := <[ls_draw_index ls := (d, Some immutable_state_set)]> (ls_draws ls);
                 ls_writes := writes; ls_draw_index := S (ls_draw_index ls) |}
      end
  end.

(** [application::gltf_load_immutable_state] *)
Fixpoint gltf_load_immutable_state (fuel : nat) (node : gltf_node) (ls : gltf_load_state)
    : gltf_error + gltf_load_state :=
  match fuel with
  | O => inl gltf_stack_overflow
  | S fuel' =>
      if gn_mesh node =? -1 then inr ls
      else match vec_at (gm_meshes model) (gn_mesh node) with
           | inl e => inl e
           | inr mesh =>
               match gltf_foldM load_primitive_state ls mesh with
               | inl e => inl e
               | inr ls =>
                   gltf_foldM (fun ls node_index =>
                       match vec_at (gm_nodes model) node_index with
                       | inl e => inl e
                       | inr child_node => gltf_load_immutable_state fuel' child_node ls
                       end) ls (gn_children node)
               end
           end
  end.

(** The two passes of [application::gltf_load] over the default scene's
    root nodes; [m_draws] is the resulting [draws]. *)
Definition gltf_load (fuel : nat) (app : App) : gltf_error + gltf_load_state :=
  match vec_at (gm_scenes model) (gm_default_scene model) with
  | inl e => inl e
  | inr scene_nodes =>
      let load_state := {| ls_app := app; ls_draws := []; ls_writes := [];
                           ls_draw_index := 0 |} in
      match gltf_foldM (fun ls node_index =>
                match vec_at (gm_nodes model) node_index with
                | inl e => inl e
                | inr scene_node => gltf_load_node fuel scene_node ls
                end) load_state scene_nodes with
      | inl e => inl e
      | inr ls =>
          gltf_foldM (fun ls node_index =>
              match vec_at (gm_nodes model) node_index with
              | inl e => inl e
              | inr scene_node => gltf_load_immutable_state fuel scene_node ls
              end) ls scene_nodes
      end
  end.

End GltfLoad.

(** The first pass only appends draws with a null immutable state. *)
Definition pass1_inv {App Draw Tex : Type} (ls : @gltf_load_state App Draw Tex) : Prop :=
  Forall (fun d => snd d = None) (ls_draws ls) /\ ls_writes ls = [] /\ ls_draw_index ls = 0%nat.

(** The second pass: the first [draw_index] draws hold the sets 0, 1, ...
    in order, the others are still null, and set [i] was written [i]-th. *)
Definition pass2_inv {App Draw Tex : Type} (ls : @gltf_load_state App Draw Tex) : Prop :=
  let k := ls_draw_index ls in
  map fst (ls_writes ls) = seq 0 k
  /\ (k <= length (ls_draws ls))%nat
  /\ forall i d o, ls_draws ls !! i = Some (d, o) -> o = (if (i <? k)%nat then Some i else None).

(** A scene whose root node carries no mesh and has one child with a
    one-primitive mesh. *)
Definition example_primitive : gltf_primitive := {| gp_indices := 0; gp_material := 0 |}.
Definition root_transform_model : gltf_model :=
  {| gm_nodes := [{| gn_mesh := -1; gn_camera := -1; gn_children := [1] |};
                  {| gn_mesh := 0; gn_camera := -1; gn_children := [] |}];
     gm_meshes := [[example_primitive]];
     gm_camera_count := 0;
     gm_scenes := [[0]];
     gm_default_scene := 0 |}.
(** A scene whose root node carries a two-primitive mesh and has one child
    without a mesh, whose own child carries a one-primitive mesh. *)
Definition meshed_root_model : gltf_model :=
  {| gm_nodes := [{| gn_mesh := 0; gn_camera := -1; gn_children := [1] |};
                  {| gn_mesh := -1; gn_camera := -1; gn_children := [2] |};
                  {| gn_mesh := 1; gn_camera := -1; gn_children := [] |}];
     gm_meshes := [[{| gp_indices := 0; gp_material := 0 |};
                    {| gp_indices := 1; gp_material := 1 |}];
                   [{| gp_indices := 2; gp_material := 2 |}]];
     gm_camera_count := 0;
     gm_scenes := [[0]];
     gm_default_scene := 0 |}.
Definition example_load_draw (p : gltf_primitive) (app : unit)
    : gltf_error + (gltf_primitive * unit) := inr (p, app).
Definition example_load_texture (p : gltf_primitive) (app : unit)
    : gltf_error + (Z * unit) := inr (gp_material p, app).

(** The parts of a [tinygltf::Model] [gltf_load_ibo] reads: the accessors
    (with their buffer view), the buffer views and the buffers' bytes. *)
Record gltf_index_accessor := { ia_bufferView : Z; ia_accessor : gltf_accessor }.
Record gltf_buffer_view := { bv_buffer : Z; bv_byteOffset : Z; bv_byteLength : Z }.
Record gltf_buffers := {
  gb_accessors : list gltf_index_accessor;
  gb_bufferViews : list gltf_buffer_view;
  gb_buffers : list (list Byte.byte)
}.

(** [static_cast<uint8_t>] *)
Definition u8 (z : Z) : Z := z mod 2 ^ 8.

(** What [gltf_load_ibo] stores into the draw record: [ibo], [first_index]
    and [index_count] ([vertex_offset] is set to 0). *)
Record ibo_fields := { if_ibo : Z; if_first_index : Z; if_index_count : Z }.

(** [application::gltf_load_ibo] with [load_state.loaded_ibo], an
    [unordered_map<uint32_t, uint8_t>] from buffer view to static buffer
    index.  Reading the bytes of a buffer view
    that does not fit in its buffer, and a zero divisor for [first_index],
    are undefined behaviour. *)
Definition gltf_load_ibo (di : device_info) (gb : gltf_buffers) (primitive : gltf_primitive)
    (loaded_ibo : gmap Z Z) (s : dev_state)
    : (gltf_error + ibo_fields) * (gmap Z Z * dev_state) :=
  match vec_at (gb_accessors gb) (gp_indices primitive) with
  | inl e => (inl e, (loaded_ibo, s))
  | inr index_accessor =>
      let loaded :=
        match loaded_ibo !! u32 (ia_bufferView index_accessor) with
        | Some loaded_buffer => (inr loaded_buffer, (loaded_ibo, s))
        | None =>
            match vec_at (gb_bufferViews gb) (ia_bufferView index_accessor) with
            | inl e => (inl e, (loaded_ibo, s))
            | inr index_buffer_view =>
                match vec_at (gb_buffers gb) (bv_buffer index_buffer_view) with
                | inl e => (inl e, (loaded_ibo, s))
                | inr index_buffer =>
                    if bv_byteOffset index_buffer_view + bv_byteLength index_buffer_view
                       <=? Z.of_nat (length index_buffer)
                    then
                      let data := take (Z.to_nat (bv_byteLength index_buffer_view))
                                    (drop (Z.to_nat (bv_byteOffset index_buffer_view))
                                       index_buffer) in
                      match create_static_buffer di eIndexBuffer data s with
                      | (inl e, s') => (inl (gltf_exception e), (loaded_ibo, s'))
                      | (inr device_buffer, s') =>
                          let device_buffer_index := u8 (Z.of_nat device_buffer) in
                          (inr device_buffer_index,
                           (<[u32 (ia_bufferView index_accessor) := device_buffer_index]> loaded_ibo, s'))
                      end
                    else (inl gltf_undefined_behaviour, (loaded_ibo, s))
                end
            end
        end in
      match loaded with
      | (inl e, st) => (inl e, st)
      | (inr ibo, st) =>
          match gltf_first_index (ia_accessor index_accessor) with
          | None => (inl gltf_undefined_behaviour, st)
          | Some first_index =>
              (inr {| if_ibo := ibo; if_first_index := first_index;
                      if_index_count := u32 (acc_count (ia_accessor index_accessor)) |}, st)
          end
      end
  end.

Definition example_index_buffers : gltf_buffers :=
  {| gb_accessors := [{| ia_bufferView := 0;
                         ia_accessor := {| acc_byteOffset := 0;
                           acc_componentType := TINYGLTF_COMPONENT_TYPE_UNSIGNED_SHORT;
                           acc_count := 2 |} |};
                      {| ia_bufferView := 0;
                         ia_accessor := {| acc_byteOffset := 2;
                           acc_componentType := TINYGLTF_COMPONENT_TYPE_UNSIGNED_SHORT;
                           acc_count := 1 |} |}];
     gb_bufferViews := [{| bv_buffer := 0; bv_byteOffset := 0; bv_byteLength := 4 |}];
     gb_buffers := [[Byte.x00; Byte.x00; Byte.x01; Byte.x00]] |}.

(** A node that lists itself as its own child *)
Definition self_loop_model : gltf_model :=
  {| gm_nodes := [{| gn_mesh := -1; gn_camera := -1; gn_children := [0] |}];
     gm_meshes := []; gm_camera_count := 0; gm_scenes := [[0]]; gm_default_scene := 0 |}.

(* ================================================================== *)
(** * Properties *)

(* ------------------------------------------------------------------ *)
(** ** glTF component sizes *)

(** C10: [gltf_component_size] is 1 for BYTE and UNSIGNED_BYTE, 2 for SHORT
    and UNSIGNED_SHORT, 4 for INT, UNSIGNED_INT and FLOAT, 8 for DOUBLE and
    0 for every other value; for an index accessor whose component type is
    none of these eight, the divisor of [gltf_load_ibo]'s [first_index]
    computation is 0 (the division is undefined). *)
Theorem gltf_component_size_cases (c : Z) :
  gltf_component_size c =
    (if bool_decide (c = 5120 \/ c = 5121) then 1
     else if bool_decide (c = 5122 \/ c = 5123) then 2
     else if bool_decide (c = 5124 \/ c = 5125 \/ c = 5126) then 4
     else if bool_decide (c = 5130) then 8
     else 0)
  /\ (c ∉ [5120; 5121; 5122; 5123; 5124; 5125; 5126; 5130] ->
      forall acc : gltf_accessor, acc_componentType acc = c ->
      gltf_first_index_divisor acc = 0 /\ gltf_first_index acc = None).
Proof.
  assert (Hsize : gltf_component_size c =
    (if bool_decide (c = 5120 \/ c = 5121) then 1
     else if bool_decide (c = 5122 \/ c = 5123) then 2
     else if bool_decide (c = 5124 \/ c = 5125 \/ c = 5126) then 4
     else if bool_decide (c = 5130) then 8
     else 0)).
  { unfold gltf_component_size, TINYGLTF_COMPONENT_TYPE_BYTE,
      TINYGLTF_COMPONENT_TYPE_UNSIGNED_BYTE, TINYGLTF_COMPONENT_TYPE_SHORT,
      TINYGLTF_COMPONENT_TYPE_UNSIGNED_SHORT, TINYGLTF_COMPONENT_TYPE_INT,
      TINYGLTF_COMPONENT_TYPE_UNSIGNED_INT, TINYGLTF_COMPONENT_TYPE_FLOAT,
      TINYGLTF_COMPONENT_TYPE_DOUBLE.
    case_bool_decide as H1; [destruct H1 as [-> | ->]; reflexivity |].
    case_bool_decide as H2; [destruct H2 as [-> | ->]; reflexivity |].
    case_bool_decide as H3; [destruct H3 as [-> | [-> | ->]]; reflexivity |].
    case_bool_decide as H4; [subst; reflexivity |].
    repeat rewrite (proj2 (Z.eqb_neq c _)) by lia. reflexivity. }
  split; [exact Hsize |].
  intros Hout acc Hc.
  assert (H0 : gltf_component_size c = 0).
  { rewrite Hsize. rewrite !elem_of_cons, elem_of_nil in Hout.
    repeat case_bool_decide; tauto. }
  unfold gltf_first_index, gltf_first_index_divisor.
  rewrite Hc, H0. split; reflexivity.
Qed.

Lemma gltf_component_size_cases_witness :
  gltf_first_index_divisor
    {| acc_byteOffset := 12; acc_componentType := 5127; acc_count := 3 |} = 0.
Proof.
  apply (proj2 (gltf_component_size_cases 5127)); [| reflexivity].
  rewrite !elem_of_cons, elem_of_nil. lia.
Defined.

(* ------------------------------------------------------------------ *)
(** ** Memory-type lookup *)

Lemma bit_scan_from_some (mask : Z) (i fuel j : nat) :
  bit_scan_from mask i fuel = Some j ->
  (i <= j < i + fuel)%nat /\ Z.testbit mask (Z.of_nat j) = true /\
  (forall l, (i <= l < j)%nat -> Z.testbit mask (Z.of_nat l) = false).
Proof.
  revert i. induction fuel as [| fuel IH]; intros i H; simpl in H; [discriminate |].
  destruct (Z.testbit mask (Z.of_nat i)) eqn:Hb.
  - injection H as <-. split; [lia |]. split; [exact Hb | intros; lia].
  - destruct (IH (S i) H) as (Hr & Hj & Hl). split; [lia |]. split; [exact Hj |].
    intros l Hl'. destruct (Nat.eq_dec l i) as [-> | Hne]; [exact Hb |]. apply Hl. lia.
Qed.

Lemma bit_scan_from_none (mask : Z) (i fuel : nat) :
  bit_scan_from mask i fuel = None ->
  forall l, (i <= l < i + fuel)%nat -> Z.testbit mask (Z.of_nat l) = false.
Proof.
  revert i. induction fuel as [| fuel IH]; intros i H l Hl; simpl in H; [lia |].
  destruct (Z.testbit mask (Z.of_nat i)) eqn:Hb; [discriminate |].
  destruct (Nat.eq_dec l i) as [-> | Hne]; [exact Hb |]. apply (IH (S i)); [exact H | lia].
Qed.

Lemma first_matching_type_ext (mt : list Z) (a1 a2 d : Z) (i n : nat) :
  (forall l, (i <= l < i + n)%nat ->
     Z.testbit a1 (Z.of_nat l) && (Z.land (memory_type_flags mt l) d =? d)
     = Z.testbit a2 (Z.of_nat l) && (Z.land (memory_type_flags mt l) d =? d)) ->
  first_matching_type mt a1 d i n = first_matching_type mt a2 d i n.
Proof.
  revert i. induction n as [| n IH]; intros i H; simpl; [reflexivity |].
  rewrite (H i) by lia.
  destruct (_ && _); [reflexivity |]. apply IH. intros l Hl. apply H. lia.
Qed.

Lemma first_matching_type_none (mt : list Z) (a d : Z) (i n : nat) :
  (forall l, (i <= l < i + n)%nat -> Z.testbit a (Z.of_nat l) = false) ->
  first_matching_type mt a d i n = None.
Proof.
  revert i. induction n as [| n IH]; intros i H; simpl; [reflexivity |].
  rewrite (H i) by lia. simpl. apply IH. intros l Hl. apply H. lia.
Qed.

Lemma first_matching_type_at (mt : list Z) (a d : Z) (j : nat) :
  forall i n, (i <= j < i + n)%nat ->
  (forall l, (i <= l < j)%nat -> Z.testbit a (Z.of_nat l) = false) ->
  Z.testbit a (Z.of_nat j) = true ->
  (Z.land (memory_type_flags mt j) d =? d) = true ->
  first_matching_type mt a d i n = Some j.
Proof.
  intros i n. revert i. induction n as [| n IH]; intros i Hr Hlow Hj Hm; [lia |].
  simpl. destruct (Nat.eq_dec i j) as [-> | Hne].
  - rewrite Hj, Hm. reflexivity.
  - rewrite (Hlow i) by lia. simpl. apply IH; [lia | | exact Hj | exact Hm].
    intros l Hl. apply Hlow. lia.
Qed.

(** The mask after [allowed_types &= ~(1 << mem_type)] *)
Lemma clear_bit_testbit (a : Z) (j l : nat) :
  (l < 32)%nat ->
  Z.testbit (u32 (Z.land a (Z.lnot (Z.shiftl 1 (Z.of_nat j))))) (Z.of_nat l)
  = Z.testbit a (Z.of_nat l) && negb (Nat.eqb j l).
Proof.
  intros Hl. unfold u32.
  rewrite Z.mod_pow2_bits_low by lia.
  rewrite Z.land_spec, Z.lnot_spec by lia.
  rewrite Z.shiftl_1_l, Z.pow2_bits_eqb by lia.
  f_equal. f_equal. destruct (Nat.eqb_spec j l); [subst; apply Z.eqb_refl |].
  apply Z.eqb_neq. lia.
Qed.

Lemma get_memory_type_loop_spec (mt : list Z) (d : Z) (fuel : nat) :
  forall (allowed : Z) (k : nat),
  (forall l, (l < k)%nat -> Z.testbit allowed (Z.of_nat l) = false) ->
  (32 <= k + fuel)%nat ->
  get_memory_type_loop mt d allowed fuel = find_memory_type_spec mt allowed d.
Proof.
  unfold find_memory_type_spec.
  induction fuel as [| fuel IH]; intros allowed k Hlow Hfuel; cbn [get_memory_type_loop].
  - rewrite first_matching_type_none; [reflexivity |]. intros l Hl. apply Hlow. lia.
  - unfold bit_scan_forward. destruct (bit_scan_from allowed 0 32) as [j |] eqn:Hbsf.
    + destruct (bit_scan_from_some _ _ _ _ Hbsf) as (Hj & Hset & Hbelow).
      assert (Hkj : (k <= j)%nat).
      { destruct (Nat.le_gt_cases k j) as [? | Hlt]; [assumption |].
        rewrite Hlow in Hset by exact Hlt. discriminate. }
      destruct (Z.land (memory_type_flags mt j) d =? d) eqn:Hm.
      * rewrite (first_matching_type_at mt allowed d j 0 32); [reflexivity | lia | | |];
          assumption.
      * rewrite (IH _ (S j)).
        -- rewrite (first_matching_type_ext mt _ allowed d 0 32); [reflexivity |].
           intros l Hl.
           rewrite clear_bit_testbit by lia.
           destruct (Nat.eqb_spec j l) as [<- | Hne].
           ++ rewrite Hm. rewrite !andb_false_r. reflexivity.
           ++ rewrite andb_true_r. reflexivity.
        -- intros l Hl. rewrite clear_bit_testbit by lia.
           destruct (Nat.eqb_spec j l) as [<- | Hne]; [apply andb_false_r |].
           rewrite Hbelow by lia. reflexivity.
        -- lia.
    + rewrite first_matching_type_none; [reflexivity |].
      intros l Hl. apply (bit_scan_from_none _ _ _ Hbsf). lia.
Qed.

(** The index returned has all the requested property flags. *)
Lemma get_memory_type_flags (mt : list Z) (allowed desired : Z) (ty : nat) :
  get_memory_type mt allowed desired = inr ty ->
  Z.land (memory_type_flags mt ty) desired = desired.
Proof.
  unfold get_memory_type. generalize 32%nat as fuel. intros fuel. revert allowed.
  induction fuel as [| fuel IH]; intros allowed; cbn [get_memory_type_loop]; [discriminate |].
  destruct (bit_scan_forward allowed) as [j |]; [| discriminate].
  destruct (Z.land (memory_type_flags mt j) desired =? desired) eqn:Hm.
  - intros [= <-]. apply Z.eqb_eq. exact Hm.
  - apply IH.
Qed.

(** C4: [get_memory_type] scans the allowed indices in ascending order and
    returns the first whose property flags contain the requested ones, and
    raises a capability exception when none does; with four memory types of
    which only index 2 is host-visible and host-coherent, asking for those
    two flags yields index 2. *)
Theorem get_memory_type_first_match (memory_types : list Z) (allowed_types desired : Z) :
  get_memory_type memory_types allowed_types desired
    = find_memory_type_spec memory_types allowed_types desired
  /\ get_memory_type [eDeviceLocal; eHostVisible; Z.lor eHostVisible eHostCoherent;
                      Z.lor eDeviceLocal eHostCoherent] 15
       (Z.lor eHostVisible eHostCoherent) = inr 2%nat.
Proof.
  split.
  - apply (get_memory_type_loop_spec _ _ 32 _ 0); [intros; lia | lia].
  - reflexivity.
Qed.

(* ------------------------------------------------------------------ *)
(** ** Uniform offsets *)

Lemma align_up_pow2 (k v : Z) :
  0 <= k <= 31 -> 0 <= v -> v + 2 ^ k - 1 < 2 ^ 32 ->
  align_up v (2 ^ k) = (v + 2 ^ k - 1) / 2 ^ k * 2 ^ k.
Proof.
  intros Hk Hv Hlt.
  assert (Hpos : 0 < 2 ^ k) by (apply Z.pow_pos_nonneg; lia).
  assert (Hle : 2 ^ k <= 2 ^ 31) by (apply Z.pow_le_mono_r; lia).
  unfold align_up, u32.
  rewrite (Z.mod_small (v + 2 ^ k - 1)) by lia.
  rewrite (Z.mod_small (2 ^ k - 1)) by lia.
  set (x := v + 2 ^ k - 1).
  assert (Hx : x mod 2 ^ 32 = x) by (apply Z.mod_small; unfold x; lia).
  assert (Hones : 2 ^ k - 1 = Z.ones k) by (rewrite Z.ones_equiv; lia).
  rewrite Hones, <- Z.shiftr_div_pow2, <- Z.shiftl_mul_pow2 by lia.
  apply Z.bits_inj'. intros n Hn.
  rewrite Z.testbit_mod_pow2, Z.land_spec, Z.testbit_mod_pow2, Z.lnot_spec,
    Z.testbit_ones_nonneg by lia.
  destruct (Z.ltb_spec n k).
  - rewrite Z.shiftl_spec_low by lia.
    destruct (Z.ltb_spec n 32); simpl; [apply andb_false_r | reflexivity].
  - rewrite Z.shiftl_spec_high, Z.shiftr_spec by lia.
    replace (n - k + k) with n by lia.
    destruct (Z.ltb_spec n 32); simpl.
    + rewrite andb_true_r. reflexivity.
    + rewrite <- Hx, Z.testbit_mod_pow2 by lia.
      destruct (Z.ltb_spec n 32); [lia | reflexivity].
Qed.

Lemma align_up_pow2_bounds (k v : Z) :
  0 <= k <= 31 -> 0 <= v -> v + 2 ^ k - 1 < 2 ^ 32 ->
  v <= align_up v (2 ^ k) <= v + 2 ^ k - 1 /\ align_up v (2 ^ k) mod 2 ^ k = 0.
Proof.
  intros Hk Hv Hlt.
  assert (Hpos : 0 < 2 ^ k) by (apply Z.pow_pos_nonneg; lia).
  rewrite align_up_pow2 by assumption.
  split; [| apply Z.mod_mul; lia].
  pose proof (Z.div_mod (v + 2 ^ k - 1) (2 ^ k) ltac:(lia)) as Hdm.
  pose proof (Z.mod_pos_bound (v + 2 ^ k - 1) (2 ^ k) Hpos) as Hb.
  lia.
Qed.

Lemma draw_ubo_offsets_props {D : Type} (k : Z) (draws : list D) :
  forall o : Z,
  0 <= k <= 31 -> 0 <= o -> o mod 2 ^ k = 0 ->
  Forall (fun x => x + sizeof_mat4 <= per_frame_ubo_size)
         (draw_ubo_offsets (2 ^ k) draws o) ->
  Forall (fun x => o <= x /\ x mod 2 ^ k = 0) (draw_ubo_offsets (2 ^ k) draws o)
  /\ Sorted Z.lt (draw_ubo_offsets (2 ^ k) draws o).
Proof.
  assert (Hpos : forall k, 0 <= k -> 0 < 2 ^ k) by (intros; apply Z.pow_pos_nonneg; lia).
  induction draws as [| dr draws IH]; intros o Hk Ho Hmod Hin; simpl.
  - split; constructor.
  - simpl in Hin. inversion Hin as [| ? ? Ho64 Hin']; subst.
    unfold sizeof_mat4, per_frame_ubo_size in *.
    pose proof (Hpos k (proj1 Hk)).
    assert (Hk31 : 2 ^ k <= 2 ^ 31) by (apply Z.pow_le_mono_r; lia).
    destruct (align_up_pow2_bounds k (o + 64) Hk ltac:(lia) ltac:(lia))
      as [Hab Hamod].
    destruct (IH (align_up (o + 64) (2 ^ k)) Hk ltac:(lia) Hamod Hin')
      as [Hall Hsorted].
    split.
    + constructor; [lia |].
      eapply Forall_impl; [exact Hall |]. intros x [Hx Hxm]. split; [lia | exact Hxm].
    + constructor; [exact Hsorted |].
      destruct draws; simpl; constructor. lia.
Qed.

Lemma ubo_writes_in_bounds_Forall {D : Type} (a : Z) (draws : list D) :
  ubo_writes_in_bounds a draws = true ->
  Forall (fun x => x + sizeof_mat4 <= per_frame_ubo_size) (draw_ubo_offsets a draws 0).
Proof.
  unfold ubo_writes_in_bounds. intros H.
  apply List.Forall_forall. intros x Hx.
  apply Z.leb_le. exact (proj1 (forallb_forall _ _) H x Hx).
Qed.

Lemma draw_ubo_offsets_step {D : Type} (a : Z) (draws : list D) :
  forall (o : Z) (i : nat) (x y : Z),
  draw_ubo_offsets a draws o !! i = Some x ->
  draw_ubo_offsets a draws o !! S i = Some y ->
  y = align_up (x + sizeof_mat4) a.
Proof.
  induction draws as [| dr draws IH]; intros o i x y Hx Hy; [discriminate |].
  destruct i as [| i].
  - simpl in Hx. injection Hx as <-.
    destruct draws; simpl in Hy; [discriminate |]. injection Hy as <-. reflexivity.
  - exact (IH _ i x y Hx Hy).
Qed.

(** C6: for an alignment A = 2^k (A is a [uint32_t], so k <= 31) and draws
    whose 64-byte stores all lie inside the [per_frame_ubo_size] bytes
    [draw] maps (past them the source stores out of bounds), the first
    offset handed to the descriptor bind is 0, each next one is [align_up]
    of the previous one plus the 64-byte write, every offset is a multiple
    of A, and the offsets strictly increase. *)
Theorem draw_ubo_offsets_aligned_increasing {D : Type} (k : Z) (draws : list D) :
  0 <= k <= 31 ->
  ubo_writes_in_bounds (2 ^ k) draws = true ->
  let offsets := draw_ubo_offsets (2 ^ k) draws 0 in
  (draws <> [] -> offsets !! 0%nat = Some 0)
  /\ (forall i x y, offsets !! i = Some x -> offsets !! S i = Some y ->
        y = align_up (x + sizeof_mat4) (2 ^ k))
  /\ Forall (fun x => x mod 2 ^ k = 0) offsets
  /\ Sorted Z.lt offsets.
Proof.
  intros Hk Hin offsets.
  assert (Hpos : 0 < 2 ^ k) by (apply Z.pow_pos_nonneg; lia).
  destruct (draw_ubo_offsets_props k draws 0 Hk ltac:(lia)
              ltac:(rewrite Z.mod_0_l; lia) (ubo_writes_in_bounds_Forall _ _ Hin))
    as [Hall Hsorted].
  split; [| split; [| split]].
  - intros Hne. destruct draws; [congruence | reflexivity].
  - intros i x y. apply draw_ubo_offsets_step.
  - eapply Forall_impl; [exact Hall |]. intros x [_ Hx]. exact Hx.
  - exact Hsorted.
Qed.

Lemma draw_ubo_offsets_aligned_increasing_witness :
  ubo_writes_in_bounds (2 ^ 8) (repeat tt 200) = true
  /\ draw_ubo_offsets (2 ^ 8) (repeat tt 200) 0 !! 0%nat = Some 0
  /\ Sorted Z.lt (draw_ubo_offsets (2 ^ 8) (repeat tt 200) 0).
Proof.
  assert (Hin : ubo_writes_in_bounds (2 ^ 8) (repeat tt 200) = true)
    by (vm_compute; reflexivity).
  destruct (draw_ubo_offsets_aligned_increasing (D := unit) 8 (repeat tt 200)
              ltac:(lia) Hin) as (H0 & _ & _ & Hs).
  split; [exact Hin | split; [apply H0; discriminate | exact Hs]].
Defined.

(* ------------------------------------------------------------------ *)
(** ** Physical-device selection *)

(** The device the loop ends with does not depend on the value the shared
    [queue_family_index] variable carries in. *)
Fixpoint selected_device (required : list string) (devs : list physical_device)
    (found : option physical_device) : option physical_device :=
  match devs with
  | [] => found
  | pd :: rest =>
      if passes_all_checks required pd then
        if is_discrete pd then Some pd else selected_device required rest (Some pd)
      else selected_device required rest found
  end.

Lemma select_physical_device_fst (required : list string) (devs : list physical_device) :
  forall found q,
  fst (select_physical_device required devs found q) = selected_device required devs found.
Proof.
  induction devs as [| pd rest IH]; intros found q; [reflexivity |].
  cbn [select_physical_device selected_device].
  unfold passes_all_checks, is_discrete.
  destruct (bool_decide (pd_extensions pd = [])); cbn [andb negb]; [apply IH |].
  destruct (Nat.eqb (found_extensions required pd) (length required));
    cbn [andb negb]; [| apply IH].
  destruct (bool_decide (pd_queue_families pd = [])); cbn [andb negb]; [apply IH |].
  destruct (find_queue_family pd =? Z.of_nat (length (pd_queue_families pd)));
    cbn [andb negb]; [apply IH |].
  destruct (bool_decide (pd_surface_formats pd = [])); cbn [andb negb]; [apply IH |].
  destruct (found_surface_format (pd_surface_formats pd)); cbn [andb negb]; [| apply IH].
  destruct (bool_decide (pd_present_modes pd = [])); cbn [andb negb]; [apply IH |].
  destruct (found_present_mode (pd_present_modes pd)); cbn [andb negb]; [| apply IH].
  destruct (pd_deviceType pd =? eDiscreteGpu); [reflexivity | apply IH].
Qed.

Lemma selected_device_closed (required : list string) (devs : list physical_device) :
  forall found,
  selected_device required devs found =
    match List.find (fun d => passes_all_checks required d && is_discrete d) devs with
    | Some d => Some d
    | None =>
        match last (filter (fun d => passes_all_checks required d = true) devs) with
        | Some d => Some d
        | None => found
        end
    end.
Proof.
  induction devs as [| pd rest IH]; intros found; [reflexivity |].
  cbn [selected_device List.find].
  destruct (passes_all_checks required pd) eqn:Hp.
  - rewrite filter_cons_True by exact Hp. rewrite last_cons.
    destruct (is_discrete pd) eqn:Hd; cbn [andb]; [reflexivity |].
    rewrite IH. destruct (List.find _ rest); [reflexivity |].
    destruct (last _); reflexivity.
  - rewrite filter_cons_False by (rewrite Hp; discriminate).
    cbn [andb]. apply IH.
Qed.

Lemma vk_select_physical_device_device (required : list string)
    (devs : list physical_device) :
  match vk_select_physical_device required devs with
  | inr (pd, _) => Some pd
  | inl _ => None
  end = selected_device required devs None.
Proof.
  unfold vk_select_physical_device.
  case_bool_decide as Hnil; [subst; reflexivity |].
  pose proof (select_physical_device_fst required devs None (2 ^ 32 - 1)) as H.
  destruct (select_physical_device required devs None (2 ^ 32 - 1)) as [[pd |] q].
  - simpl in H. rewrite <- H. reflexivity.
  - simpl in H. rewrite <- H. reflexivity.
Qed.

(** C1 (counterexample): with two qualifying integrated adapters the loop
    overwrites [found_physical_device] with the second one, so a later
    qualifying non-discrete adapter does override the earlier choice. *)
Lemma select_later_integrated_overrides :
  passes_all_checks required_device_extensions integrated_gpu = true
  /\ passes_all_checks required_device_extensions second_integrated_gpu = true
  /\ is_discrete integrated_gpu = false /\ is_discrete second_integrated_gpu = false
  /\ vk_select_physical_device required_device_extensions
       [integrated_gpu; second_integrated_gpu] = inr (second_integrated_gpu, 0).
Proof. vm_compute. repeat split. Qed.

(** C1 (amended): the adapter selected is the first adapter passing all
    four checks that is discrete, if there is one; otherwise it is the
    last adapter passing all checks; and there is none when no adapter
    passes. *)
Theorem select_first_discrete_else_last (required : list string)
    (devs : list physical_device) :
  match vk_select_physical_device required devs with
  | inr (pd, _) => Some pd
  | inl _ => None
  end =
  match List.find (fun d => passes_all_checks required d && is_discrete d) devs with
  | Some d => Some d
  | None => last (filter (fun d => passes_all_checks required d = true) devs)
  end.
Proof.
  rewrite vk_select_physical_device_device, selected_device_closed.
  destruct (List.find _ devs); [reflexivity |].
  destruct (last _); reflexivity.
Qed.

(** C7: whenever some enumerated adapter passes all checks and is discrete,
    the selected adapter is a discrete one that passes all checks, wherever
    it stands in the enumeration; for [adapter without VK_KHR_swapchain,
    qualifying integrated GPU, qualifying discrete GPU] the discrete GPU is
    selected. *)
Theorem select_prefers_discrete :
  (forall (required : list string) (devs : list physical_device),
     (exists d, In d devs /\ passes_all_checks required d = true /\ is_discrete d = true) ->
     exists pd q, vk_select_physical_device required devs = inr (pd, q)
                  /\ In pd devs /\ passes_all_checks required pd = true
                  /\ is_discrete pd = true)
  /\ vk_select_physical_device required_device_extensions
       [no_swapchain_gpu; integrated_gpu; discrete_gpu] = inr (discrete_gpu, 1).
Proof.
  split; [| vm_compute; reflexivity].
  intros required devs (d & Hin & Hp & Hd).
  pose proof (select_first_discrete_else_last required devs) as H.
  destruct (List.find (fun d => passes_all_checks required d && is_discrete d) devs)
    as [d' |] eqn:Hfind.
  - destruct (find_some _ _ Hfind) as [Hin' Hf].
    apply andb_true_iff in Hf as [Hp' Hd'].
    destruct (vk_select_physical_device required devs) as [e | [pd q]];
      [discriminate |].
    injection H as ->. exists d', q. auto.
  - pose proof (find_none _ _ Hfind d Hin) as Hn. simpl in Hn.
    rewrite Hp, Hd in Hn. discriminate.
Qed.

Lemma select_prefers_discrete_witness :
  exists pd q,
    vk_select_physical_device required_device_extensions [integrated_gpu; discrete_gpu]
      = inr (pd, q) /\ is_discrete pd = true.
Proof.
  destruct (proj1 select_prefers_discrete required_device_extensions
              [integrated_gpu; discrete_gpu]) as (pd & q & H & _ & _ & Hd).
  - exists discrete_gpu. split; [simpl; tauto |]. split; vm_compute; reflexivity.
  - exists pd, q. split; assumption.
Defined.

(** C2 (counterexample): an adapter failing only the queue-family check
    (graphics without compute) and one failing only the present-mode check
    (no mailbox) make selection fail with the same message, which names no
    requirement category. *)
Lemma select_error_names_no_category :
  vk_select_physical_device required_device_extensions [graphics_only_gpu]
    = inl (capability_exception "No Vulkan physical devices meets requirements.")
  /\ vk_select_physical_device required_device_extensions [fifo_only_gpu]
    = inl (capability_exception "No Vulkan physical devices meets requirements.").
Proof. split; vm_compute; reflexivity. Qed.

(** C2 (amended): when no adapter passes all checks, selection fails with a
    capability exception whose message only tells an empty enumeration
    ("No Vulkan physical devices enumerated.") from every other case ("No
    Vulkan physical devices meets requirements."), whichever check failed. *)
Theorem select_error_messages (required : list string) (devs : list physical_device) :
  (forall d, In d devs -> passes_all_checks required d = false) ->
  vk_select_physical_device required devs =
    inl (capability_exception
           (if bool_decide (devs = []) then "No Vulkan physical devices enumerated."
            else "No Vulkan physical devices meets requirements.")).
Proof.
  intros Hnone.
  assert (Hsel : forall found, selected_device required devs found = found).
  { clear -Hnone. induction devs as [| pd rest IH]; intros found; [reflexivity |].
    cbn [selected_device]. rewrite (Hnone pd) by (left; reflexivity).
    apply IH. intros d Hd. apply Hnone. right. exact Hd. }
  unfold vk_select_physical_device.
  case_bool_decide as Hnil; [reflexivity |].
  pose proof (select_physical_device_fst required devs None (2 ^ 32 - 1)) as H.
  rewrite Hsel in H.
  destruct (select_physical_device required devs None (2 ^ 32 - 1)) as [[pd |] q];
    simpl in H; [discriminate | reflexivity].
Qed.

Lemma select_error_messages_witness :
  vk_select_physical_device required_device_extensions [no_swapchain_gpu; graphics_only_gpu]
    = inl (capability_exception "No Vulkan physical devices meets requirements.").
Proof.
  rewrite (select_error_messages required_device_extensions
             [no_swapchain_gpu; graphics_only_gpu]); [reflexivity |].
  intros d [<- | [<- | []]]; vm_compute; reflexivity.
Defined.

(* ------------------------------------------------------------------ *)
(** ** Static uploads *)

Lemma bind_inr_inv {A B} (m : M A) (f : A -> M B) (s s' : dev_state) (b : B) :
  bind m f s = (inr b, s') ->
  exists a s1, m s = (inr a, s1) /\ f a s1 = (inr b, s').
Proof.
  unfold bind. destruct (m s) as [[e | a] s1]; [discriminate |]. eauto.
Qed.

Ltac unfold_device_calls :=
  cbv beta iota zeta delta [createBuffer getBufferMemoryRequirements lift allocateMemory
    bindBufferMemory map_copy_unmap create_one_time_command_buffer record
    finish_one_time_command_buffer queue_submit queue_waitIdle
    cleanup_one_time_command_buffer cleanup_device_buffer destroyBuffer freeMemory
    push_static_buffer push_texture set_memory_bytes set_buffers set_memories set_images
    set_views set_command_buffers set_queue log_event fresh_handle modify gets ret throw
    bind mk_state ds_next ds_buffers ds_memories ds_images ds_views ds_command_buffers
    ds_queue ds_static_buffers ds_textures ds_log db_buffer db_device_memory fst snd negb
    createImage getImageMemoryRequirements bindImageMemory createImageView].

Tactic Notation "unfold_device_calls" "in" hyp(H) :=
  cbv beta iota zeta delta [createBuffer getBufferMemoryRequirements lift allocateMemory
      bindBufferMemory map_copy_unmap create_one_time_command_buffer record
      finish_one_time_command_buffer queue_submit queue_waitIdle
      cleanup_one_time_command_buffer cleanup_device_buffer destroyBuffer freeMemory
      push_static_buffer push_texture set_memory_bytes set_buffers set_memories set_images
      set_views set_command_buffers set_queue log_event fresh_handle modify gets ret throw
      bind mk_state ds_next ds_buffers ds_memories ds_images ds_views ds_command_buffers
      ds_queue ds_static_buffers ds_textures ds_log db_buffer db_device_memory fst snd negb
      createImage getImageMemoryRequirements bindImageMemory createImageView] in H.

Ltac map_simpl :=
  repeat first
    [ rewrite lookup_insert_eq
    | rewrite lookup_insert_ne by lia
    | rewrite lookup_alter_eq
    | rewrite lookup_alter_ne by lia
    | rewrite lookup_delete_ne by lia
    | rewrite lookup_delete_eq ].

Lemma create_device_buffer_inr (di : device_info) (flags size props : Z)
    (s s' : dev_state) (b : device_buffer) :
  create_device_buffer di flags size props s = (inr b, s') ->
  let n := ds_next s in
  let reqs := di_buffer_requirements di flags size in
  exists ty,
    get_memory_type (di_memory_types di) (snd reqs) props = inr ty
    /\ di_allocation_succeeds di ty (fst reqs) = true
    /\ b = {| db_buffer := n; db_device_memory := S n |}
    /\ s' = mk_state (S (S n))
              (<[n := {| bo_size := size; bo_usage := flags; bo_memory := Some (S n) |}]>
                 (ds_buffers s))
              (<[S n := {| mo_type := ty; mo_size := fst reqs;
                           mo_bytes := repeat Byte.x00 (Z.to_nat (fst reqs)) |}]>
                 (ds_memories s))
              (ds_images s) (ds_views s) (ds_command_buffers s) (ds_queue s)
              (ds_static_buffers s) (ds_textures s)
              (ds_log s ++ [ev_create_buffer n flags size;
                            ev_allocate_memory (S n) ty (fst reqs);
                            ev_bind_memory n (S n)]).
Proof.
  destruct s as [n bufs mems imgs views cbs q sbs txs log]. simpl.
  unfold create_device_buffer. unfold_device_calls.
  rewrite lookup_insert_eq. cbv beta iota.
  destruct (get_memory_type _ _ props) as [e | ty] eqn:E; [discriminate |].
  destruct (di_allocation_succeeds di ty _) eqn:A; cbv beta iota; [| discriminate].
  intros H. injection H as <- <-. exists ty. split; [reflexivity |]. split; [exact A |].
  split; [reflexivity |].
  rewrite alter_insert_eq, <- !app_assoc. reflexivity.
Qed.

Lemma write_bytes_prefix (bytes old : list Byte.byte) :
  take (length bytes) (write_bytes 0 bytes old) = bytes.
Proof.
  unfold write_bytes. simpl. rewrite take_app_length. reflexivity.
Qed.

(** C5: a successful [create_static_buffer] (entered with an idle queue)
    creates a staging buffer of the payload's size in host-visible and
    host-coherent memory, maps it, copies the payload, unmaps it, creates
    the destination buffer with the requested usage plus TransferDst in
    device-local memory, records the copy of the whole payload into a
    one-time command buffer, ends it, submits it to the queue and waits for
    the queue to be idle, then frees the command buffer and the staging
    buffer; the destination buffer then holds exactly the payload and the
    queue is empty. *)
Theorem create_static_buffer_uploads (di : device_info) (flags : Z) (data : list Byte.byte)
    (st st' : dev_state) (idx : nat) :
  ds_queue st = [] ->
  create_static_buffer di flags data st = (inr idx, st') ->
  let n := ds_next st in
  let len := Z.of_nat (length data) in
  let mt := di_memory_types di in
  exists ty_staging ty_optimized,
    Z.land (memory_type_flags mt ty_staging) staging_memory_properties
      = staging_memory_properties
    /\ Z.land (memory_type_flags mt ty_optimized) optimized_memory_properties
      = optimized_memory_properties
    /\ ds_log st' = ds_log st ++
         [ev_create_buffer n eTransferSrc len;
          ev_allocate_memory (S n) ty_staging (fst (di_buffer_requirements di eTransferSrc len));
          ev_bind_memory n (S n);
          ev_map_memory (S n) len;
          ev_memcpy (S n) data;
          ev_unmap_memory (S n);
          ev_create_buffer (S (S n)) (Z.lor flags eTransferDst) len;
          ev_allocate_memory (S (S (S n))) ty_optimized
            (fst (di_buffer_requirements di (Z.lor flags eTransferDst) len));
          ev_bind_memory (S (S n)) (S (S (S n)));
          ev_allocate_command_buffer (S (S (S (S n))));
          ev_record (S (S (S (S n)))) (cmd_copy_buffer n (S (S n)) len);
          ev_end_command_buffer (S (S (S (S n))));
          ev_submit (S (S (S (S n))));
          ev_queue_wait_idle;
          ev_free_command_buffer (S (S (S (S n))));
          ev_destroy_buffer n;
          ev_free_memory (S n)]
    /\ idx = length (ds_static_buffers st)
    /\ ds_static_buffers st'
         = ds_static_buffers st ++ [{| db_buffer := S (S n); db_device_memory := S (S (S n)) |}]
    /\ ds_buffers st' !! S (S n)
         = Some {| bo_size := len; bo_usage := Z.lor flags eTransferDst;
                   bo_memory := Some (S (S (S n))) |}
    /\ buffer_contents st' (S (S n)) = Some data
    /\ ds_queue st' = [].
Proof.
  destruct st as [n bufs mems imgs views cbs q sbs txs log]. simpl. intros -> H.
  unfold create_static_buffer in H.
  apply bind_inr_inv in H as (sb & s1 & H1 & H).
  apply create_device_buffer_inr in H1 as (ty1 & E1 & A1 & -> & ->).
  apply bind_inr_inv in H as (u & s2 & H2 & H).
  unfold_device_calls in H2. injection H2 as _ <-.
  apply bind_inr_inv in H as (ob & s3 & H3 & H).
  apply create_device_buffer_inr in H3 as (ty2 & E2 & A2 & -> & ->).
  simpl in E1, A1, E2, A2.
  exists ty1, ty2.
  split; [exact (get_memory_type_flags _ _ _ _ E1) |].
  split; [exact (get_memory_type_flags _ _ _ _ E2) |].
  destruct (di_buffer_requirements di eTransferSrc (Z.of_nat (length data))) as [sz1 al1].
  destruct (di_buffer_requirements di (Z.lor flags eTransferDst) (Z.of_nat (length data)))
    as [sz2 al2].
  simpl in E1, A1, E2, A2.
  unfold_device_calls in H.
  injection H as <- <-.
  cbv beta iota delta [foldl execute_command_buffer default mk_state ds_next ds_buffers
    ds_memories ds_images ds_views ds_command_buffers ds_queue ds_static_buffers
    ds_textures ds_log].
  map_simpl. cbv beta iota delta [fmap option_fmap option_map id]. cbn [app].
  cbv beta iota zeta delta [execute_command buffer_memory ds_next ds_buffers
    ds_memories ds_images ds_views ds_command_buffers ds_queue ds_static_buffers
    ds_textures ds_log].
  map_simpl. cbv beta iota delta [fmap option_fmap option_map id mk_state].
  cbn [mo_type mo_size mo_bytes].
  split; [rewrite <- !app_assoc; reflexivity |].
  split; [reflexivity |]. split; [reflexivity |].
  split; [map_simpl; reflexivity |].
  split; [| reflexivity].
  cbv beta iota delta [buffer_contents buffer_memory ds_buffers ds_memories].
  map_simpl. cbv beta iota delta [fmap option_fmap option_map].
  cbn [mo_bytes bo_size].
  rewrite Nat2Z.id, write_bytes_prefix, write_bytes_prefix. reflexivity.
Qed.

Lemma create_static_buffer_uploads_witness :
  fst (create_static_buffer roomy_device eVertexBuffer example_bytes empty_dev_state) = inr 0%nat
  /\ buffer_contents (snd (create_static_buffer roomy_device eVertexBuffer example_bytes
                             empty_dev_state)) 2 = Some example_bytes.
Proof.
  split; [vm_compute; reflexivity |].
  assert (Hrun : create_static_buffer roomy_device eVertexBuffer example_bytes empty_dev_state
                 = (inr 0%nat, snd (create_static_buffer roomy_device eVertexBuffer
                                      example_bytes empty_dev_state)))
    by (vm_compute; reflexivity).
  destruct (create_static_buffer_uploads roomy_device eVertexBuffer example_bytes
              empty_dev_state _ 0 eq_refl Hrun)
    as (ty1 & ty2 & _ & _ & _ & _ & _ & _ & Hc & _).
  exact Hc.
Defined.

Lemma bind_inl_inv {A B} (m : M A) (f : A -> M B) (s s' : dev_state) (e : error) :
  bind m f s = (inl e, s') ->
  m s = (inl e, s') \/ exists a s1, m s = (inr a, s1) /\ f a s1 = (inl e, s').
Proof.
  unfold bind. destruct (m s) as [[e' | a] s1]; intros H.
  - injection H as -> ->. left. reflexivity.
  - right. eauto.
Qed.

Lemma create_device_buffer_keeps (di : device_info) (flags size props : Z)
    (s s' : dev_state) (r : error + device_buffer) (k : nat) :
  create_device_buffer di flags size props s = (r, s') ->
  (k < ds_next s)%nat ->
  ds_buffers s' !! k = ds_buffers s !! k /\ ds_memories s' !! k = ds_memories s !! k.
Proof.
  destruct s as [n bufs mems imgs views cbs q sbs txs log]. simpl. intros H Hk.
  unfold create_device_buffer in H. unfold_device_calls in H.
  rewrite lookup_insert_eq in H. cbv beta iota in H.
  destruct (get_memory_type _ _ props); cbv beta iota in H.
  - injection H as _ <-. simpl. map_simpl. auto.
  - destruct (di_allocation_succeeds _ _ _); cbv beta iota in H.
    + injection H as _ <-. simpl. map_simpl. auto.
    + injection H as _ <-. simpl. map_simpl. auto.
Qed.

Lemma createImage_effect (t : gli_texture) (s s' : dev_state) r :
  createImage t s = (r, s') ->
  r = inr (ds_next s) /\ ds_next s' = S (ds_next s)
  /\ ds_buffers s' = ds_buffers s /\ ds_memories s' = ds_memories s.
Proof.
  destruct s as [n bufs mems imgs views cbs q sbs txs log]. simpl.
  unfold createImage. unfold_device_calls.
  destruct (if tx_target t =? TARGET_2D then tx_extent t else (0, 0)) as [w hgt].
  intros H. injection H as <- <-. simpl. auto.
Qed.

Lemma allocateMemory_effect (di : device_info) (size : Z) (ty : nat) (s s' : dev_state) r :
  allocateMemory di size ty s = (r, s') ->
  (ds_next s <= ds_next s')%nat /\ ds_buffers s' = ds_buffers s
  /\ forall k, (k < ds_next s)%nat -> ds_memories s' !! k = ds_memories s !! k.
Proof.
  destruct s as [n bufs mems imgs views cbs q sbs txs log]. simpl.
  unfold allocateMemory. unfold_device_calls.
  destruct (di_allocation_succeeds di ty size); simpl; intros H; injection H as _ <-; simpl.
  - split; [lia |]. split; [reflexivity |]. intros k Hk. map_simpl. reflexivity.
  - auto.
Qed.

Lemma cleanup_device_buffer_effect (b : device_buffer) (s s' : dev_state) r :
  cleanup_device_buffer b s = (r, s') ->
  ds_buffers s' = delete (db_buffer b) (ds_buffers s)
  /\ ds_memories s' = delete (db_device_memory b) (ds_memories s).
Proof.
  destruct s as [n bufs mems imgs views cbs q sbs txs log].
  unfold cleanup_device_buffer. unfold_device_calls. intros H. injection H as _ <-.
  simpl. auto.
Qed.

Lemma static_buffer_staging_freed (di : device_info) (flags : Z) (data : list Byte.byte)
    (st st' : dev_state) (idx : nat) :
  create_static_buffer di flags data st = (inr idx, st') ->
  ds_buffers st' !! ds_next st = None /\ ds_memories st' !! S (ds_next st) = None.
Proof.
  intros H. unfold create_static_buffer in H.
  apply bind_inr_inv in H as (sb & s1 & H1 & H).
  apply create_device_buffer_inr in H1 as (ty1 & _ & _ & -> & _).
  repeat (apply bind_inr_inv in H as (? & ? & ? & H)).
  match goal with Hc : cleanup_device_buffer _ _ = _ |- _ =>
    apply cleanup_device_buffer_effect in Hc as [Hb Hm] end.
  unfold push_static_buffer in H. injection H as _ <-. simpl.
  rewrite Hb, Hm. simpl. rewrite !lookup_delete_eq. auto.
Qed.

Lemma texture_staging_freed (di : device_info) (file_name : string) (tex : gli_texture)
    (st st' : dev_state) (idx : nat) :
  create_texture di file_name (Some tex) st = (inr idx, st') ->
  ds_buffers st' !! ds_next st = None /\ ds_memories st' !! S (ds_next st) = None.
Proof.
  intros H. unfold create_texture in H.
  apply bind_inr_inv in H as (sb & s1 & H1 & H).
  apply create_device_buffer_inr in H1 as (ty1 & _ & _ & -> & _).
  repeat (apply bind_inr_inv in H as (? & ? & ? & H)).
  match goal with Hc : cleanup_device_buffer _ _ = _ |- _ =>
    apply cleanup_device_buffer_effect in Hc as [Hb Hm] end.
  unfold push_texture in H. injection H as _ <-. simpl.
  rewrite Hb, Hm. simpl. rewrite !lookup_delete_eq. auto.
Qed.

Lemma static_buffer_staging_kept_on_error (di : device_info) (flags : Z)
    (data : list Byte.byte) (st st' : dev_state) (e : error) :
  create_static_buffer di flags data st = (inl e, st') ->
  fst (create_device_buffer di eTransferSrc (Z.of_nat (length data)) staging_memory_properties st)
    = inr {| db_buffer := ds_next st; db_device_memory := S (ds_next st) |} ->
  is_Some (ds_buffers st' !! ds_next st) /\ is_Some (ds_memories st' !! S (ds_next st)).
Proof.
  destruct st as [n bufs mems imgs views cbs q sbs txs log]. simpl. intros H Hs.
  unfold create_static_buffer in H.
  apply bind_inl_inv in H as [H | (sb & s1 & H1 & H)].
  { rewrite H in Hs. discriminate. }
  apply create_device_buffer_inr in H1 as (ty1 & _ & _ & -> & ->). simpl.
  apply bind_inl_inv in H as [H | (u & s2 & H2 & H)].
  { unfold_device_calls in H. discriminate. }
  unfold_device_calls in H2. injection H2 as _ <-.
  apply bind_inl_inv in H as [H | (ob & s3 & H3 & H)].
  { destruct (create_device_buffer_keeps _ _ _ _ _ _ _ n H) as [-> _]; [simpl; lia |].
    destruct (create_device_buffer_keeps _ _ _ _ _ _ _ (S n) H) as [_ ->]; [simpl; lia |].
    simpl. map_simpl. split; eexists; reflexivity. }
  unfold_device_calls in H. discriminate.
Qed.

Lemma texture_staging_kept_on_error (di : device_info) (file_name : string)
    (tex : gli_texture) (st st' : dev_state) (e : error) :
  create_texture di file_name (Some tex) st = (inl e, st') ->
  fst (create_device_buffer di eTransferSrc (Z.of_nat (length (tx_data tex)))
         staging_memory_properties st)
    = inr {| db_buffer := ds_next st; db_device_memory := S (ds_next st) |} ->
  is_Some (ds_buffers st' !! ds_next st) /\ is_Some (ds_memories st' !! S (ds_next st)).
Proof.
  destruct st as [n bufs mems imgs views cbs q sbs txs log]. simpl. intros H Hs.
  unfold create_texture in H.
  apply bind_inl_inv in H as [H | (sb & s1 & H1 & H)].
  { rewrite H in Hs. discriminate. }
  apply create_device_buffer_inr in H1 as (ty1 & _ & _ & -> & ->). simpl.
  apply bind_inl_inv in H as [H | (u & s2 & H2 & H)].
  { unfold_device_calls in H. discriminate. }
  unfold_device_calls in H2. injection H2 as _ <-.
  apply bind_inl_inv in H as [H | (img & s3 & H3 & H)].
  { apply createImage_effect in H as [? _]. discriminate. }
  apply createImage_effect in H3 as (_ & N3 & B3 & M3). simpl in N3, B3, M3.
  apply bind_inl_inv in H as [H | (reqs & s4 & H4 & H)].
  { unfold_device_calls in H. discriminate. }
  unfold_device_calls in H4. injection H4 as _ <-.
  apply bind_inl_inv in H as [H | (ty & s5 & H5 & H)].
  { unfold lift in H. injection H as _ <-. rewrite B3, M3. map_simpl.
    split; eexists; reflexivity. }
  unfold lift in H5. injection H5 as _ <-.
  apply bind_inl_inv in H as [H | (m & s6 & H6 & H)].
  { apply allocateMemory_effect in H as (_ & B6 & M6).
    rewrite B6, M6, B3, M3 by lia. map_simpl. split; eexists; reflexivity. }
  unfold_device_calls in H. discriminate.
Qed.

(** C3, counterexample: on the device whose device-local heap is full,
    [create_static_buffer] and [create_texture] raise the allocation error
    of the destination memory while the staging buffer (handle 0) and its
    memory (handle 1) are still alive: nothing destroys them on that path. *)
Lemma upload_error_leaks_staging :
  fst (create_static_buffer vram_full_device eVertexBuffer example_bytes empty_dev_state)
    = inl (vk_system_error "ErrorOutOfDeviceMemory")
  /\ ds_buffers (snd (create_static_buffer vram_full_device eVertexBuffer example_bytes
                        empty_dev_state)) !! 0%nat
     = Some {| bo_size := 5; bo_usage := eTransferSrc; bo_memory := Some 1%nat |}
  /\ ds_memories (snd (create_static_buffer vram_full_device eVertexBuffer example_bytes
                         empty_dev_state)) !! 1%nat
     = Some {| mo_type := 1; mo_size := 5; mo_bytes := example_bytes |}
  /\ fst (create_texture vram_full_device "texture.ktx" (Some example_texture) empty_dev_state)
    = inl (vk_system_error "ErrorOutOfDeviceMemory")
  /\ ds_buffers (snd (create_texture vram_full_device "texture.ktx" (Some example_texture)
                        empty_dev_state)) !! 0%nat
     = Some {| bo_size := 4; bo_usage := eTransferSrc; bo_memory := Some 1%nat |}.
Proof. vm_compute. repeat split. Qed.

(** C3, as the code behaves: when [create_static_buffer] or [create_texture]
    returns normally, the staging buffer and its memory (the first two
    handles the call creates) have been destroyed and freed; when either
    raises an error after the staging buffer was created, the staging
    buffer and its memory are still alive. *)
Theorem upload_staging_release (di : device_info) (flags : Z) (data : list Byte.byte)
    (file_name : string) (tex : gli_texture) (st : dev_state) :
  let n := ds_next st in
  (forall idx st', create_static_buffer di flags data st = (inr idx, st') ->
     ds_buffers st' !! n = None /\ ds_memories st' !! S n = None)
  /\ (forall idx st', create_texture di file_name (Some tex) st = (inr idx, st') ->
     ds_buffers st' !! n = None /\ ds_memories st' !! S n = None)
  /\ (forall e st', create_static_buffer di flags data st = (inl e, st') ->
     fst (create_device_buffer di eTransferSrc (Z.of_nat (length data))
            staging_memory_properties st)
       = inr {| db_buffer := n; db_device_memory := S n |} ->
     is_Some (ds_buffers st' !! n) /\ is_Some (ds_memories st' !! S n))
  /\ (forall e st', create_texture di file_name (Some tex) st = (inl e, st') ->
     fst (create_device_buffer di eTransferSrc (Z.of_nat (length (tx_data tex)))
            staging_memory_properties st)
       = inr {| db_buffer := n; db_device_memory := S n |} ->
     is_Some (ds_buffers st' !! n) /\ is_Some (ds_memories st' !! S n)).
Proof.
  split; [| split; [| split]]; intros ? ?.
  - apply static_buffer_staging_freed.
  - apply texture_staging_freed.
  - apply static_buffer_staging_kept_on_error.
  - apply texture_staging_kept_on_error.
Qed.

Lemma upload_staging_release_witness :
  ds_buffers (snd (create_static_buffer roomy_device eVertexBuffer example_bytes
                     empty_dev_state)) !! 0%nat = None
  /\ is_Some (ds_buffers (snd (create_static_buffer vram_full_device eVertexBuffer
                                 example_bytes empty_dev_state)) !! 0%nat)
  /\ ds_memories (snd (create_texture roomy_device "texture.ktx" (Some example_texture)
                         empty_dev_state)) !! 1%nat = None
  /\ is_Some (ds_memories (snd (create_texture vram_full_device "texture.ktx"
                                  (Some example_texture) empty_dev_state)) !! 1%nat).
Proof.
  destruct (upload_staging_release roomy_device eVertexBuffer example_bytes "texture.ktx"
              example_texture empty_dev_state) as (Hsb & Htx & _ & _).
  destruct (upload_staging_release vram_full_device eVertexBuffer example_bytes
              "texture.ktx" example_texture empty_dev_state) as (_ & _ & Esb & Etx).
  split; [| split; [| split]].
  - refine (proj1 (Hsb 0%nat _ _)). vm_compute. reflexivity.
  - refine (proj1 (Esb (vk_system_error "ErrorOutOfDeviceMemory") _ _ _));
      vm_compute; reflexivity.
  - refine (proj2 (Htx 0%nat _ _)). vm_compute. reflexivity.
  - refine (proj2 (Etx (vk_system_error "ErrorOutOfDeviceMemory") _ _ _));
      vm_compute; reflexivity.
Defined.

Lemma fmap_repeat_bool (f : bool -> bool) (b : bool) (n : nat) :
  f <$> repeat b n = repeat (f b) n.
Proof. induction n as [| n IH]; [reflexivity |]. simpl. f_equal. exact IH. Qed.

Lemma gpu_complete_track (n : nat) (s : frame_state) (slot : nat) :
  fences_track n s -> fences_track n (gpu_complete s slot).
Proof.
  intros [Hf Hl]. unfold gpu_complete.
  destruct (default false (fs_in_flight s !! slot)); [| split; assumption].
  unfold fences_track, set_fence, set_in_flight; simpl.
  rewrite Hf, list_fmap_insert, length_insert. auto.
Qed.

Lemma foldl_gpu_complete_track (n : nat) (l : list nat) (s : frame_state) :
  fences_track n s -> fences_track n (foldl gpu_complete s l).
Proof.
  revert s. induction l as [| x l IH]; intros s H; simpl; [exact H |].
  apply IH, gpu_complete_track, H.
Qed.

Lemma list_lookup_insert_same (l : list bool) (i : nat) (x : bool) :
  (i < length l)%nat -> <[i:=x]> l !! i = Some x.
Proof. intros H. rewrite list_lookup_insert. case_decide; [reflexivity | lia]. Qed.

Lemma record_draws_frame (slot : nat) (align : Z) (draws : list draw_record)
    (off : Z) (s : frame_state) :
  exists evs,
    record_draws slot align draws off s
    = {| fs_fences := fs_fences s; fs_in_flight := fs_in_flight s;
         fs_image_ready := fs_image_ready s; fs_trace := fs_trace s ++ evs |}.
Proof.
  revert off s. induction draws as [| d draws IH]; intros off s; simpl.
  - exists []. destruct s; simpl. rewrite app_nil_r. reflexivity.
  - edestruct IH as [evs ->]. simpl. eexists. rewrite <- !app_assoc. reflexivity.
Qed.

Lemma draw_frame (n : nat) (align : Z) (draws : list draw_record) (a : nat)
    (s : frame_state) :
  fences_track n s -> (a < n)%nat ->
  fences_track n (draw align draws a s)
  /\ exists rest,
       fs_trace (draw align draws a s)
       = fs_trace s ++
         fe_reset_fence next_image_ready :: fe_acquire a
         :: fe_wait_fence (command_fence a) true (default false (fs_in_flight s !! a))
         :: fe_reset_fence (command_fence a) :: fe_reset_command_buffer a false :: rest.
Proof.
  intros [Hf Hl] Ha.
  destruct s as [fences in_flight ready trace]; simpl in *. subst fences.
  destruct (lookup_lt_is_Some_2 in_flight a) as [b Hb]; [lia |].
  unfold draw.
  cbv [wait_for_fence reset_fence fs_emit fence_signaled set_fence gpu_complete
       set_in_flight fences_track fs_fences fs_in_flight fs_image_ready fs_trace].
  rewrite list_lookup_fmap, Hb. simpl.
  assert (Hlf : (a < length (negb <$> in_flight))%nat) by (rewrite length_fmap; lia).
  assert (Hli : (a < length in_flight)%nat) by lia.
  destruct b; simpl;
    match goal with |- context [record_draws ?sl ?al ?dr ?o ?st] =>
      destruct (record_draws_frame sl al dr o st) as [evs ->] end; simpl.
  - rewrite (list_lookup_insert_same (negb <$> in_flight)) by assumption.
    rewrite (list_lookup_insert_same in_flight) by assumption. simpl.
    split; [split | eexists; rewrite <- !app_assoc; reflexivity].
    + rewrite list_insert_insert, decide_True by reflexivity.
      rewrite list_insert_insert, decide_True by reflexivity.
      rewrite list_fmap_insert. reflexivity.
    + rewrite !length_insert. exact Hl.
  - rewrite list_lookup_fmap, Hb. simpl.
    split; [split | eexists; rewrite <- !app_assoc; reflexivity].
    + rewrite list_fmap_insert. reflexivity.
    + rewrite length_insert. exact Hl.
Qed.

Lemma run_frames_tick (n : nat) (align : Z) (draws : list draw_record)
    (ticks : list (list nat * nat)) :
  Forall (fun tick => (snd tick < n)%nat) ticks ->
  forall s t completed a tr,
    fences_track n s ->
    nth_error ticks t = Some (completed, a) ->
    nth_error (run_frames align draws ticks s) t = Some tr ->
    exists blocked rest,
      tr = fe_reset_fence next_image_ready :: fe_acquire a
           :: fe_wait_fence (command_fence a) true blocked
           :: fe_reset_fence (command_fence a) :: fe_reset_command_buffer a false :: rest
      /\ (t = 0%nat ->
          blocked = default false (fs_in_flight (foldl gpu_complete s completed) !! a)).
Proof.
  induction 1 as [| [c0 a0] ticks Ha0 _ IH]; intros s t completed a tr Hs Ht Hr;
    [destruct t; discriminate |].
  simpl in Ha0. cbn [run_frames] in Hr.
  remember {| fs_fences := fs_fences (foldl gpu_complete s c0);
              fs_in_flight := fs_in_flight (foldl gpu_complete s c0);
              fs_image_ready := fs_image_ready (foldl gpu_complete s c0);
              fs_trace := [] |} as s0 eqn:Es0.
  assert (Hs0 : fences_track n s0).
  { subst s0. destruct (foldl_gpu_complete_track n c0 s Hs) as [Hf Hl]. split; assumption. }
  destruct (draw_frame n align draws a0 s0 Hs0 Ha0) as [Hs1 [rest Hrest]].
  destruct t as [| t].
  - simpl in Ht. injection Ht as <- <-. cbn [nth_error] in Hr.
    apply (inj Some) in Hr. subst tr.
    rewrite Hrest. exists (default false (fs_in_flight s0 !! a0)), rest.
    split; [subst s0; reflexivity |]. intros _. subst s0. reflexivity.
  - simpl in Ht. cbn [nth_error] in Hr.
    destruct (IH _ t completed a tr Hs1 Ht Hr) as (blocked & rest' & E & _).
    exists blocked, rest'. split; [exact E | discriminate].
Qed.

Lemma gpu_complete_idle (s : frame_state) (slot : nat) :
  default false (fs_in_flight s !! slot) = false -> gpu_complete s slot = s.
Proof. intros H. unfold gpu_complete. rewrite H. reflexivity. Qed.

Lemma repeat_false_lookup (n i : nat) : default false (repeat false n !! i) = false.
Proof.
  revert i. induction n as [| n IH]; intros [| i]; simpl; auto.
Qed.

Lemma foldl_gpu_complete_init (n : nat) (l : list nat) :
  foldl gpu_complete (per_frame_init n) l = per_frame_init n.
Proof.
  induction l as [| x l IH]; simpl; [reflexivity |].
  rewrite gpu_complete_idle; [exact IH |]. apply repeat_false_lookup.
Qed.

Lemma per_frame_init_track (n : nat) : fences_track n (per_frame_init n).
Proof.
  split; simpl.
  - rewrite fmap_repeat_bool. reflexivity.
  - apply repeat_length.
Qed.

(** C8: every slot fence is created signaled (so nothing is in flight and the
    first tick's wait returns at once), and in every tick of the frame loop
    the wait on the acquired slot's command fence returns with the fence
    signaled before any event touching that slot's fence, command buffer or
    uniform buffer: the tick begins with the image-ready fence reset, the
    acquire and that wait, and every slot access comes after it. *)
Theorem frame_loop_fence_discipline (n : nat) (align : Z) (draws : list draw_record)
    (ticks : list (list nat * nat)) :
  Forall (fun tick => (snd tick < n)%nat) ticks ->
  fs_fences (per_frame_init n) = repeat true n
  /\ fs_trace (per_frame_init n)
     = map (fun i => fe_create_fence (command_fence i) true) (seq 0 n)
  /\ forall t completed a tr,
       nth_error ticks t = Some (completed, a) ->
       nth_error (run_frames align draws ticks (per_frame_init n)) t = Some tr ->
       exists blocked rest,
         tr = fe_reset_fence next_image_ready :: fe_acquire a
              :: fe_wait_fence (command_fence a) true blocked
              :: fe_reset_fence (command_fence a) :: fe_reset_command_buffer a false :: rest
         /\ (forall k e, nth_error tr k = Some e -> slot_access a e = true -> (2 < k)%nat)
         /\ (t = 0%nat -> blocked = false).
Proof.
  intros Hticks. split; [reflexivity |]. split; [reflexivity |].
  intros t completed a tr Ht Hr.
  destruct (run_frames_tick n align draws ticks Hticks _ t completed a tr
              (per_frame_init_track n) Ht Hr) as (blocked & rest & -> & H0).
  exists blocked, rest. split; [reflexivity |]. split.
  - intros k e Hk Hacc.
    destruct k as [| [| [| k]]]; simpl in Hk; try (injection Hk as <-; discriminate).
    lia.
  - intros ->. rewrite H0 by reflexivity. rewrite foldl_gpu_complete_init.
    apply repeat_false_lookup.
Qed.

Lemma frame_loop_fence_discipline_witness :
  exists blocked rest,
    nth_error (run_frames 256 [] slow_gpu_ticks (per_frame_init 2)) 2
    = Some (fe_reset_fence next_image_ready :: fe_acquire 0
            :: fe_wait_fence (command_fence 0) true blocked
            :: fe_reset_fence (command_fence 0) :: fe_reset_command_buffer 0 false :: rest).
Proof.
  assert (Hticks : Forall (fun tick => (snd tick < 2)%nat) slow_gpu_ticks)
    by (repeat constructor; simpl; lia).
  destruct (frame_loop_fence_discipline 2 256 [] slow_gpu_ticks Hticks) as (_ & _ & H).
  destruct (H 2%nat [] 0%nat _ eq_refl eq_refl) as (blocked & rest & E & _ & _).
  exists blocked, rest. rewrite <- E. reflexivity.
Defined.

Lemma strongly_sorted_app {A} (R : A -> A -> Prop) (l1 l2 : list A) :
  StronglySorted R l1 -> StronglySorted R l2 ->
  (forall x y, In x l1 -> In y l2 -> R x y) -> StronglySorted R (l1 ++ l2).
Proof.
  induction 1 as [| x l1 _ IH Hx]; intros H2 Hc; simpl; [exact H2 |].
  constructor.
  - apply IH; [exact H2 |]. intros y z Hy Hz. apply Hc; [right |]; assumption.
  - apply Forall_app. split; [exact Hx |].
    apply List.Forall_forall. intros y Hy. apply Hc; [left; reflexivity | assumption].
Qed.

Lemma strongly_sorted_nth {A} (R : A -> A -> Prop) (l : list A) :
  StronglySorted R l ->
  forall j k x y, (j < k)%nat -> nth_error l j = Some x -> nth_error l k = Some y -> R x y.
Proof.
  induction 1 as [| z l _ IH Hz]; intros j k x y Hjk Hj Hk; [destruct j; discriminate |].
  destruct j as [| j], k as [| k]; try lia; simpl in Hj, Hk.
  - injection Hj as <-. rewrite List.Forall_forall in Hz. apply Hz.
    eapply nth_error_In. exact Hk.
  - apply (IH j k); [lia | exact Hj | exact Hk].
Qed.

Lemma teardown_block_nil (lo hi : nat) : teardown_block lo hi [].
Proof. split; constructor. Qed.

Lemma teardown_block_app (lo m hi : nat) (l1 l2 : list teardown_event) :
  (lo <= m < hi)%nat ->
  teardown_block lo m l1 -> teardown_block (S m) hi l2 -> teardown_block lo hi (l1 ++ l2).
Proof.
  intros Hm [S1 F1] [S2 F2]. split.
  - apply strongly_sorted_app; [exact S1 | exact S2 |].
    intros x y Hx Hy. rewrite List.Forall_forall in F1, F2.
    specialize (F1 x Hx). specialize (F2 y Hy). left. lia.
  - apply Forall_app. split.
    + eapply List.Forall_impl; [| exact F1]. simpl. intros. lia.
    + eapply List.Forall_impl; [| exact F2]. simpl. intros. lia.
Qed.

Lemma teardown_block_when (lo hi : nat) (b : bool) (l : list teardown_event) :
  teardown_block lo hi l -> teardown_block lo hi (when b l).
Proof. destruct b; [auto | intros _; apply teardown_block_nil]. Qed.

Lemma teardown_block_single (lo hi : nat) (e : teardown_event) :
  (lo <= fst (event_rank e) <= hi)%nat -> teardown_block lo hi [e].
Proof. intros H. split; repeat constructor; lia. Qed.

Lemma for_each_In (n : nat) (f : nat -> list teardown_event) (e : teardown_event) :
  In e (for_each n f) -> exists i, (i < n)%nat /\ In e (f i).
Proof.
  unfold for_each. rewrite in_flat_map. intros (i & Hi & He).
  apply in_seq in Hi. exists i. split; [lia | exact He].
Qed.

Lemma teardown_block_for_each (p c n : nat) (f : nat -> list teardown_event) :
  (forall i, StronglySorted event_le (f i)) ->
  (forall i e, In e (f i) ->
     fst (event_rank e) = p /\ c * i <= snd (event_rank e) < c * S i)%nat ->
  teardown_block p p (for_each n f).
Proof.
  intros Hs Hr. split.
  - induction n as [| n IH]; [constructor |].
    unfold for_each in *. rewrite seq_S, flat_map_app. simpl. rewrite app_nil_r.
    apply strongly_sorted_app; [exact IH | apply Hs |].
    intros x y Hx Hy.
    destruct (for_each_In n f x Hx) as (i & Hi & Hx').
    destruct (Hr i x Hx') as [Px Ix]. destruct (Hr n y Hy) as [Py Iy].
    right. split; [congruence |].
    assert (c * S i <= c * n)%nat by (apply Nat.mul_le_mono_l; lia). lia.
  - apply List.Forall_forall. intros e He.
    destruct (for_each_In n f e He) as (i & _ & He').
    destruct (Hr i e He') as [-> _]. lia.
Qed.

Ltac block_in :=
  intros ? ?; simpl; intros Hin;
  repeat (destruct Hin as [<- | Hin]; [simpl; lia |]); destruct Hin.

Ltac block_sorted :=
  intros ?; repeat constructor; unfold event_le; simpl; lia.

Lemma textures_cleanup_block (a : app_objects) : teardown_block 1 2 (textures_cleanup a).
Proof.
  apply (teardown_block_app 1 1 2); [lia | |].
  - apply teardown_block_when, teardown_block_single. simpl. lia.
  - apply (teardown_block_for_each 2 3); [block_sorted | block_in].
Qed.

Ltac block_one := apply teardown_block_when, teardown_block_single; simpl; lia.
Ltac block_split m := apply (teardown_block_app _ m%nat _); [lia | |].

Lemma static_buffers_cleanup_block (a : app_objects) :
  teardown_block 3 3 (static_buffers_cleanup a).
Proof. apply (teardown_block_for_each 3 2); [block_sorted | block_in]. Qed.

Lemma pipeline_cleanup_block (a : app_objects) : teardown_block 4 7 (pipeline_cleanup a).
Proof.
  unfold pipeline_cleanup.
  block_split 4%nat; [block_one |]. block_split 5%nat; [block_one |].
  block_split 6%nat; block_one.
Qed.

Lemma per_frame_cleanup_block (a : app_objects) : teardown_block 8 12 (per_frame_cleanup a).
Proof.
  unfold per_frame_cleanup.
  block_split 8%nat; [apply (teardown_block_for_each 8 1); [block_sorted | block_in] |].
  block_split 9%nat; [block_one |].
  block_split 10%nat; [apply (teardown_block_for_each 10 2); [block_sorted | block_in] |].
  block_split 11%nat; block_one.
Qed.

Lemma render_pass_cleanup_block (a : app_objects) : teardown_block 14 15 (render_pass_cleanup a).
Proof.
  unfold render_pass_cleanup.
  block_split 14%nat; [apply (teardown_block_for_each 14 1); [block_sorted | block_in] | block_one].
Qed.

Lemma vk_cleanup_block (a : app_objects) : teardown_block 18 25 (vk_cleanup a).
Proof.
  unfold vk_cleanup.
  block_split 18%nat; [block_one |].
  block_split 19%nat; [apply (teardown_block_for_each 19 3); [block_sorted | block_in] |].
  block_split 20%nat; [apply (teardown_block_for_each 20 1); [block_sorted | block_in] |].
  block_split 21%nat; [block_one |]. block_split 22%nat; [block_one |].
  block_split 23%nat; [block_one |]. block_split 24%nat; block_one.
Qed.

Lemma cleanup_block (a : app_objects) : teardown_block 0 27 (cleanup a).
Proof.
  unfold cleanup.
  block_split 0%nat; [block_one |].
  block_split 2%nat; [apply textures_cleanup_block |].
  block_split 3%nat; [apply static_buffers_cleanup_block |].
  block_split 7%nat; [apply pipeline_cleanup_block |].
  block_split 12%nat; [apply per_frame_cleanup_block |].
  block_split 13%nat; [unfold sampler_cleanup; block_one |].
  block_split 15%nat; [apply render_pass_cleanup_block |].
  block_split 17%nat; [unfold shaders_cleanup; block_split 16%nat; block_one |].
  block_split 25%nat; [apply vk_cleanup_block |].
  unfold glfw_cleanup. block_split 26%nat; [block_one |].
  apply teardown_block_single. simpl. lia.
Qed.

Lemma cleanup_rank_order (a : app_objects) (j k : nat) (x y : teardown_event) :
  nth_error (cleanup a) j = Some x -> nth_error (cleanup a) k = Some y ->
  rank_lt (event_rank x) (event_rank y) -> (j < k)%nat.
Proof.
  intros Hj Hk Hlt. destruct (cleanup_block a) as [Hs _].
  destruct (Nat.lt_ge_cases j k) as [| Hkj]; [assumption |].
  exfalso. destruct (Nat.eq_dec j k) as [-> | Hne].
  - rewrite Hj in Hk. injection Hk as <-. unfold rank_lt in Hlt. lia.
  - pose proof (strongly_sorted_nth _ _ Hs k j y x ltac:(lia) Hk Hj) as Hle.
    unfold rank_lt, event_le in *. lia.
Qed.

Lemma depends_on_rank (child parent : vk_object) :
  depends_on child parent = true -> rank_lt (teardown_rank child) (teardown_rank parent).
Proof.
  unfold rank_lt.
  destruct child, parent; cbn; intros H; try discriminate;
    try (apply Nat.eqb_eq in H; subst); lia.
Qed.

(** C9: when the device exists, [cleanup] starts with [waitIdle] on it; the
    swap chain is destroyed before the device, the device before the surface
    and the surface before the instance; and every object is destroyed
    before each object it depends on. *)
Theorem cleanup_teardown_order (a : app_objects) :
  (app_device a = true -> head (cleanup a) = Some td_device_wait_idle)
  /\ (forall j k, nth_error (cleanup a) j = Some (td_destroy o_swap_chain) ->
        nth_error (cleanup a) k = Some (td_destroy o_device) -> (j < k)%nat)
  /\ (forall j k, nth_error (cleanup a) j = Some (td_destroy o_device) ->
        nth_error (cleanup a) k = Some (td_destroy o_surface) -> (j < k)%nat)
  /\ (forall j k, nth_error (cleanup a) j = Some (td_destroy o_surface) ->
        nth_error (cleanup a) k = Some (td_destroy o_instance) -> (j < k)%nat)
  /\ (forall j k child parent,
        nth_error (cleanup a) j = Some (td_destroy parent) ->
        nth_error (cleanup a) k = Some (td_destroy child) ->
        depends_on child parent = true -> (k < j)%nat).
Proof.
  split; [intros H; unfold cleanup; rewrite H; reflexivity |].
  split; [intros j k Hj Hk; apply (cleanup_rank_order a j k _ _ Hj Hk); unfold rank_lt; cbn; lia |].
  split; [intros j k Hj Hk; apply (cleanup_rank_order a j k _ _ Hj Hk); unfold rank_lt; cbn; lia |].
  split; [intros j k Hj Hk; apply (cleanup_rank_order a j k _ _ Hj Hk); unfold rank_lt; cbn; lia |].
  intros j k child parent Hj Hk Hdep.
  apply (cleanup_rank_order a k j _ _ Hk Hj). apply depends_on_rank. exact Hdep.
Qed.

Lemma cleanup_teardown_order_witness :
  app_device full_app = true /\ head (cleanup full_app) = Some td_device_wait_idle.
Proof.
  split; [reflexivity |].
  destruct (cleanup_teardown_order full_app) as [H _]. apply H. reflexivity.
Defined.

(* ------------------------------------------------------------------ *)
(** ** Further properties of the embedded code *)

Lemma queue_family_scan_spec (families : list Z) (support : list bool) (q : Z) :
  0 <= q ->
  let r := queue_family_scan families support q in
  let ok i := (Z.land (nth (Z.to_nat (i - q)) families 0) (Z.lor eGraphics eCompute)
                 =? Z.lor eGraphics eCompute)
              && default false (support !! Z.to_nat i) in
  q <= r <= q + Z.of_nat (length families)
  /\ (r < q + Z.of_nat (length families) -> ok r = true)
  /\ (forall j, q <= j < r -> ok j = false).
Proof.
  revert q. induction families as [| f fs IH]; intros q Hq; simpl.
  - split; [lia |]. split; [lia | intros; lia].
  - destruct ((Z.land f (Z.lor eGraphics eCompute) =? Z.lor eGraphics eCompute)
              && default false (support !! Z.to_nat q)) eqn:E.
    + split; [lia |]. split; [| intros; lia].
      intros _. replace (q - q) with 0 by lia. exact E.
    + destruct (IH (q + 1) ltac:(lia)) as (B & OK & Before). cbv zeta in *.
      split; [lia |]. split.
      * intros Hr. specialize (OK ltac:(lia)).
        replace (Z.to_nat (queue_family_scan fs support (q + 1) - q))
          with (S (Z.to_nat (queue_family_scan fs support (q + 1) - (q + 1)))) by lia.
        exact OK.
      * intros j Hj. destruct (Z.eq_dec j q) as [-> | Hne].
        -- replace (q - q) with 0 by lia. exact E.
        -- specialize (Before j ltac:(lia)).
           replace (Z.to_nat (j - q)) with (S (Z.to_nat (j - (q + 1)))) by lia.
           exact Before.
Qed.

(** X1: the queue-family loop yields the index of the first family that has
    both graphics and compute and can present to the surface, or the number
    of families when none does. *)
Theorem find_queue_family_first (pd : physical_device) :
  let r := find_queue_family pd in
  let n := length (pd_queue_families pd) in
  0 <= r <= Z.of_nat n
  /\ (r < Z.of_nat n -> queue_family_ok pd (Z.to_nat r) = true)
  /\ (forall j : nat, (Z.of_nat j < r) -> queue_family_ok pd j = false).
Proof.
  unfold find_queue_family, queue_family_ok.
  destruct (queue_family_scan_spec (pd_queue_families pd) (pd_surface_support pd) 0
              ltac:(lia)) as (B & OK & Before). cbv zeta in *.
  split; [lia |]. split.
  - intros Hr. specialize (OK ltac:(lia)). rewrite Z.sub_0_r in OK. exact OK.
  - intros j Hj. specialize (Before (Z.of_nat j) ltac:(lia)).
    rewrite Z.sub_0_r, Nat2Z.id in Before. exact Before.
Qed.

Lemma foldl_add_sum {A} (f : A -> nat) (l : list A) (n : nat) :
  foldl (fun m x => (m + f x)%nat) n l = (n + sum_list (map f l))%nat.
Proof.
  revert n. induction l as [| x l IH]; intros n; simpl; [lia |].
  rewrite IH. lia.
Qed.

Lemma count_name_eq (required : list string) (e : string) :
  count_name required e = length (filter (fun r => r = e) required).
Proof.
  unfold count_name. f_equal. apply list_filter_iff.
  intros r. split; [apply bool_decide_unpack | apply bool_decide_pack].
Qed.

Lemma count_name_split (required : list string) (e : string) (es : list string) :
  e ∉ es ->
  length (filter (fun r => r ∈ e :: es) required)
  = (count_name required e + length (filter (fun r => r ∈ es) required))%nat.
Proof.
  intros He. rewrite count_name_eq.
  induction required as [| r rs IH]; [reflexivity |].
  rewrite !filter_cons. repeat case_decide; simpl; subst; try set_solver; lia.
Qed.

Lemma found_extensions_filter (required : list string) (pd : physical_device) :
  NoDup (pd_extensions pd) ->
  found_extensions required pd
  = length (filter (fun r => r ∈ pd_extensions pd) required).
Proof.
  unfold found_extensions. rewrite foldl_add_sum. simpl.
  induction (pd_extensions pd) as [| e es IH]; intros Hnd.
  - simpl. induction required as [| r rs IHr]; [reflexivity |].
    rewrite filter_cons. case_decide; [set_solver | exact IHr].
  - apply NoDup_cons in Hnd as [He Hnd]. simpl.
    rewrite IH by exact Hnd. symmetry. apply count_name_split. exact He.
Qed.

Lemma length_filter_all {A} (P : A -> Prop) `{!forall x, Decision (P x)} (l : list A) :
  length (filter P l) = length l <-> Forall P l.
Proof.
  induction l as [| x l IH]; simpl; [split; constructor |].
  rewrite filter_cons, Forall_cons. destruct (decide (P x)) as [Hx | Hx]; simpl.
  - rewrite <- IH. split; [intros Hl; split; [exact Hx | lia] | intros [_ Hl]; lia].
  - pose proof (length_filter P l). split; [lia | intros [? _]; contradiction].
Qed.

(** X2: when the driver reports each device extension at most once, the
    extension test of the selection loop (the summed [std::count] equals the
    number of required names) holds exactly when every required extension
    is among the device's extensions. *)
Theorem found_extensions_complete (required : list string) (pd : physical_device) :
  NoDup (pd_extensions pd) ->
  Nat.eqb (found_extensions required pd) (length required) = true
  <-> Forall (fun r => r ∈ pd_extensions pd) required.
Proof.
  intros Hnd. rewrite Nat.eqb_eq, found_extensions_filter by exact Hnd.
  apply (length_filter_all (fun r => r ∈ pd_extensions pd)).
Qed.

Lemma found_extensions_complete_witness :
  NoDup (pd_extensions integrated_gpu)
  /\ Nat.eqb (found_extensions required_device_extensions integrated_gpu)
       (length required_device_extensions) = true.
Proof.
  assert (Hnd : NoDup (pd_extensions integrated_gpu)) by (repeat constructor; set_solver).
  split; [exact Hnd |].
  apply (found_extensions_complete required_device_extensions integrated_gpu Hnd).
  repeat constructor.
Defined.

Lemma first_matching_type_some (mt : list Z) (a d : Z) (i n j : nat) :
  first_matching_type mt a d i n = Some j ->
  (i <= j < i + n)%nat /\ Z.testbit a (Z.of_nat j) = true
  /\ (Z.land (memory_type_flags mt j) d =? d) = true.
Proof.
  revert i. induction n as [| n IH]; intros i H; simpl in H; [discriminate |].
  destruct (Z.testbit a (Z.of_nat i)) eqn:Ht; simpl in H.
  - destruct (Z.land (memory_type_flags mt i) d =? d) eqn:Hm.
    + injection H as <-. split; [lia |]. split; assumption.
    + destruct (IH (S i) H) as (? & ? & ?). split; [lia |]. split; assumption.
  - destruct (IH (S i) H) as (? & ? & ?). split; [lia |]. split; assumption.
Qed.

Lemma memory_type_flags_past_end (mt : list Z) (i : nat) :
  (length mt <= i)%nat -> memory_type_flags mt i = 0.
Proof.
  intros H. unfold memory_type_flags. rewrite lookup_ge_None_2 by exact H. reflexivity.
Qed.

(** X3: an index returned by [get_memory_type] is below 32 and allowed by
    the mask; when some property flag is requested it is also an entry the
    driver filled in, since the zero-initialised entries past
    [memoryTypeCount] carry no flags. *)
Theorem get_memory_type_in_table (memory_types : list Z) (allowed_types desired : Z)
    (i : nat) :
  get_memory_type memory_types allowed_types desired = inr i ->
  (i < 32)%nat /\ Z.testbit allowed_types (Z.of_nat i) = true
  /\ (desired <> 0 -> (i < length memory_types)%nat).
Proof.
  unfold get_memory_type.
  rewrite (get_memory_type_loop_spec _ _ 32 _ 0) by (intros; lia || lia).
  unfold find_memory_type_spec.
  destruct (first_matching_type memory_types allowed_types desired 0 32) as [j |] eqn:E;
    [| discriminate].
  intros [= <-]. destruct (first_matching_type_some _ _ _ _ _ _ E) as (Hr & Ht & Hm).
  split; [lia |]. split; [exact Ht |].
  intros Hd. destruct (Nat.lt_ge_cases j (length memory_types)) as [| Hge]; [assumption |].
  rewrite memory_type_flags_past_end in Hm by exact Hge.
  apply Z.eqb_eq in Hm. rewrite Z.land_0_l in Hm. lia.
Qed.

Lemma get_memory_type_in_table_witness :
  get_memory_type [eDeviceLocal; Z.lor eHostVisible eHostCoherent] 3
    staging_memory_properties = inr 1%nat
  /\ (1 < length [eDeviceLocal; Z.lor eHostVisible eHostCoherent])%nat.
Proof.
  assert (H : get_memory_type [eDeviceLocal; Z.lor eHostVisible eHostCoherent] 3
                staging_memory_properties = inr 1%nat) by reflexivity.
  split; [exact H |].
  destruct (get_memory_type_in_table _ _ _ _ H) as (_ & _ & Hl).
  apply Hl. discriminate.
Defined.

Lemma align_up_pow2_u32 (k v : Z) :
  0 <= k <= 31 ->
  align_up v (2 ^ k) = u32 (v + 2 ^ k - 1) / 2 ^ k * 2 ^ k.
Proof.
  intros Hk.
  assert (Hpos : 0 < 2 ^ k) by (apply Z.pow_pos_nonneg; lia).
  assert (Hle : 2 ^ k <= 2 ^ 31) by (apply Z.pow_le_mono_r; lia).
  unfold align_up.
  set (x := u32 (v + 2 ^ k - 1)).
  assert (Hx : x mod 2 ^ 32 = x) by (unfold x, u32; apply Z.mod_mod; lia).
  assert (Hx0 : 0 <= x) by (unfold x, u32; apply Z.mod_pos_bound; lia).
  clearbody x. unfold u32.
  rewrite (Z.mod_small (2 ^ k - 1)) by lia.
  assert (Hones : 2 ^ k - 1 = Z.ones k) by (rewrite Z.ones_equiv; lia).
  rewrite Hones, <- Z.shiftr_div_pow2, <- Z.shiftl_mul_pow2 by lia.
  apply Z.bits_inj'. intros n Hn.
  rewrite Z.testbit_mod_pow2, Z.land_spec, Z.testbit_mod_pow2, Z.lnot_spec,
    Z.testbit_ones_nonneg by lia.
  destruct (Z.ltb_spec n k).
  - rewrite Z.shiftl_spec_low by lia.
    destruct (Z.ltb_spec n 32); simpl; [apply andb_false_r | reflexivity].
  - rewrite Z.shiftl_spec_high, Z.shiftr_spec by lia.
    replace (n - k + k) with n by lia.
    destruct (Z.ltb_spec n 32); simpl.
    + rewrite andb_true_r. reflexivity.
    + rewrite <- Hx, Z.testbit_mod_pow2 by lia.
      destruct (Z.ltb_spec n 32); [lia | reflexivity].
Qed.

(** X4: for an alignment 2^k with k <= 31 and a value whose rounding does
    not pass 2^32, [align_up] returns the least multiple of the alignment
    that is at least the value. *)
Theorem align_up_least_multiple (k v : Z) :
  0 <= k <= 31 -> 0 <= v -> v + 2 ^ k - 1 < 2 ^ 32 ->
  v <= align_up v (2 ^ k) /\ align_up v (2 ^ k) mod 2 ^ k = 0
  /\ forall m, v <= m -> m mod 2 ^ k = 0 -> align_up v (2 ^ k) <= m.
Proof.
  intros Hk Hv Hlt.
  assert (Hpos : 0 < 2 ^ k) by (apply Z.pow_pos_nonneg; lia).
  destruct (align_up_pow2_bounds k v Hk Hv Hlt) as [[Hlo Hhi] Hmod].
  split; [exact Hlo |]. split; [exact Hmod |].
  intros m Hm Hmm.
  set (r := align_up v (2 ^ k)) in *.
  pose proof (Z.div_mod r (2 ^ k) ltac:(lia)) as Hr.
  pose proof (Z.div_mod m (2 ^ k) ltac:(lia)) as Hm'.
  rewrite Hmod in Hr. rewrite Hmm in Hm'.
  destruct (Z.le_gt_cases r m) as [| Hgt]; [assumption |].
  exfalso.
  assert (m / 2 ^ k < r / 2 ^ k) by nia.
  assert (m / 2 ^ k + 1 <= r / 2 ^ k) by lia.
  nia.
Qed.

Lemma align_up_least_multiple_witness :
  align_up 65 (2 ^ 8) = 256 /\ (forall m, 65 <= m -> m mod 2 ^ 8 = 0 -> 256 <= m).
Proof.
  destruct (align_up_least_multiple 8 65 ltac:(lia) ltac:(lia) ltac:(lia))
    as (_ & _ & H).
  assert (E : align_up 65 (2 ^ 8) = 256) by reflexivity.
  rewrite E in H. split; [exact E | exact H].
Defined.

(** X5: on uint32_t, rounding a value within one alignment below 2^32 up to
    the alignment wraps around to 0. *)
Theorem align_up_wraps_to_zero (k v : Z) :
  0 <= k <= 31 -> 2 ^ 32 - 2 ^ k < v < 2 ^ 32 ->
  align_up v (2 ^ k) = 0.
Proof.
  intros Hk Hv.
  assert (Hpos : 0 < 2 ^ k) by (apply Z.pow_pos_nonneg; lia).
  assert (Hle : 2 ^ k <= 2 ^ 31) by (apply Z.pow_le_mono_r; lia).
  rewrite align_up_pow2_u32 by exact Hk. unfold u32.
  replace ((v + 2 ^ k - 1) mod 2 ^ 32) with (v + 2 ^ k - 1 - 2 ^ 32).
  - rewrite Z.div_small by lia. reflexivity.
  - apply (Z.mod_unique _ _ 1); lia.
Qed.

Lemma align_up_wraps_to_zero_witness :
  2 ^ 32 - 2 ^ 8 < 4294967200 < 2 ^ 32 /\ align_up 4294967200 (2 ^ 8) = 0.
Proof.
  split; [lia |]. apply (align_up_wraps_to_zero 8); lia.
Defined.

Section TraceProjection.
Context {X : Type} (p : frame_event -> option X).
Hypothesis p_wait : forall f x y, p (fe_wait_fence f x y) = None.
Hypothesis p_reset : forall f, p (fe_reset_fence f) = None.

Lemma proj_emit (s : frame_state) (e : frame_event) :
  omap p (fs_trace (fs_emit s e)) = omap p (fs_trace s) ++ omap p [e].
Proof. unfold fs_emit. cbn [fs_trace]. apply omap_app. Qed.

Lemma proj_wait (s : frame_state) (f : fence_id) :
  omap p (fs_trace (wait_for_fence s f)) = omap p (fs_trace s).
Proof.
  unfold wait_for_fence, fs_emit. simpl. rewrite omap_app. simpl. rewrite p_wait.
  rewrite app_nil_r.
  destruct (fence_signaled s f); [reflexivity |].
  destruct f as [| i]; [reflexivity |].
  unfold gpu_complete. destruct (default false _); reflexivity.
Qed.

Lemma proj_reset (s : frame_state) (f : fence_id) :
  omap p (fs_trace (reset_fence s f)) = omap p (fs_trace s).
Proof.
  unfold reset_fence, fs_emit. simpl. rewrite omap_app. simpl. rewrite p_reset.
  rewrite app_nil_r. destruct f; reflexivity.
Qed.

Lemma proj_set_in_flight (s : frame_state) (i : nat) (b : bool) :
  omap p (fs_trace (set_in_flight s i b)) = omap p (fs_trace s).
Proof. reflexivity. Qed.

End TraceProjection.

Lemma record_draws_projections (slot : nat) (align : Z) (draws : list draw_record) :
  forall (ubo_offset : Z) (s : frame_state),
  omap uniform_write_of (fs_trace (record_draws slot align draws ubo_offset s))
    = omap uniform_write_of (fs_trace s)
      ++ map (pair slot) (draw_ubo_offsets align draws ubo_offset)
  /\ omap descriptor_bind_of (fs_trace (record_draws slot align draws ubo_offset s))
    = omap descriptor_bind_of (fs_trace s)
      ++ map (pair slot) (draw_ubo_offsets align draws ubo_offset)
  /\ omap indexed_draw_of (fs_trace (record_draws slot align draws ubo_offset s))
    = omap indexed_draw_of (fs_trace s)
      ++ map (fun d => (slot, dr_index_count d, dr_first_index d, dr_vertex_offset d)) draws.
Proof.
  induction draws as [| d draws IH]; intros off s; simpl.
  - rewrite !app_nil_r. auto.
  - destruct (IH (align_up (off + sizeof_mat4) align)
                (fs_emit (fs_emit (fs_emit (fs_emit (fs_emit s
                   (fe_bind_geometry slot (dr_vbo d) (dr_ibo d)))
                   (fe_write_uniform slot off)) (fe_bind_descriptor slot off))
                   (fe_bind_immutable slot))
                   (fe_draw_indexed slot (dr_index_count d) (dr_first_index d)
                      (dr_vertex_offset d)))) as (H1 & H2 & H3).
    rewrite H1, H2, H3. simpl. rewrite !omap_app. simpl.
    rewrite <- !app_assoc. auto.
Qed.

(** X6: in one call of [draw] whose per-draw stores all lie inside the
    mapped [per_frame_ubo_size] bytes, the uniform writes are one per draw
    record, in draw order, into the acquired slot's uniform buffer at the
    offsets 0, align_up(0 + 64), ... of the per-draw offset sequence; each
    draw's descriptor bind uses the offset just written; and one indexed
    draw is issued per record with its index count, first index and vertex
    offset. *)
Theorem draw_per_record_commands (align : Z) (draws : list draw_record)
    (acquired_image : nat) (s : frame_state) :
  ubo_writes_in_bounds align draws = true ->
  let tr := fs_trace (draw align draws acquired_image s) in
  omap uniform_write_of tr
    = omap uniform_write_of (fs_trace s)
      ++ map (pair acquired_image) (draw_ubo_offsets align draws 0)
  /\ omap descriptor_bind_of tr
    = omap descriptor_bind_of (fs_trace s)
      ++ map (pair acquired_image) (draw_ubo_offsets align draws 0)
  /\ omap indexed_draw_of tr
    = omap indexed_draw_of (fs_trace s)
      ++ map (fun d => (acquired_image, dr_index_count d, dr_first_index d,
                        dr_vertex_offset d)) draws.
Proof.
  intros _. cbv zeta. unfold draw.
  split; [| split];
    repeat first [ rewrite proj_emit
                 | rewrite proj_wait by reflexivity
                 | rewrite proj_reset by reflexivity
                 | rewrite proj_set_in_flight ];
    [ rewrite (proj1 (record_draws_projections _ _ _ _ _))
    | rewrite (proj1 (proj2 (record_draws_projections _ _ _ _ _)))
    | rewrite (proj2 (proj2 (record_draws_projections _ _ _ _ _))) ];
    repeat first [ rewrite proj_emit
                 | rewrite proj_wait by reflexivity
                 | rewrite proj_reset by reflexivity
                 | rewrite proj_set_in_flight ];
    simpl; rewrite ?app_nil_r, <- ?app_assoc; reflexivity.
Qed.

Lemma draw_per_record_commands_witness :
  ubo_writes_in_bounds 64 example_draws = true
  /\ omap uniform_write_of (fs_trace (draw 64 example_draws 0 (per_frame_init 2)))
     = [(0%nat, 0); (0%nat, 64); (0%nat, 128)]
  /\ omap indexed_draw_of (fs_trace (draw 64 example_draws 0 (per_frame_init 2)))
     = [(0%nat, 36, 0, 0); (0%nat, 6, 36, 0); (0%nat, 3, 0, 24)].
Proof.
  assert (Hin : ubo_writes_in_bounds 64 example_draws = true)
    by (vm_compute; reflexivity).
  pose proof (draw_per_record_commands 64 example_draws 0 (per_frame_init 2) Hin) as Hp.
  cbv zeta in Hp. destruct Hp as (H1 & _ & H3).
  split; [exact Hin | rewrite H1, H3; vm_compute; split; reflexivity].
Defined.

Lemma flags_emit (s : frame_state) (e : frame_event) :
  fs_fences (fs_emit s e) = fs_fences s
  /\ fs_in_flight (fs_emit s e) = fs_in_flight s
  /\ fs_image_ready (fs_emit s e) = fs_image_ready s.
Proof. auto. Qed.

Lemma flags_set_in_flight (s : frame_state) (i : nat) (b : bool) :
  fs_fences (set_in_flight s i b) = fs_fences s
  /\ fs_in_flight (set_in_flight s i b) = <[i := b]> (fs_in_flight s)
  /\ fs_image_ready (set_in_flight s i b) = fs_image_ready s.
Proof. auto. Qed.

Lemma flags_reset_fence (s : frame_state) (f : fence_id) :
  fs_fences (reset_fence s f)
    = match f with next_image_ready => fs_fences s
                 | command_fence i => <[i := false]> (fs_fences s) end
  /\ fs_in_flight (reset_fence s f) = fs_in_flight s
  /\ fs_image_ready (reset_fence s f)
    = match f with next_image_ready => false | command_fence _ => fs_image_ready s end.
Proof. destruct f; auto. Qed.

Lemma flags_wait_image_ready (s : frame_state) :
  fs_fences (wait_for_fence s next_image_ready) = fs_fences s
  /\ fs_in_flight (wait_for_fence s next_image_ready) = fs_in_flight s
  /\ fs_image_ready (wait_for_fence s next_image_ready) = true.
Proof.
  unfold wait_for_fence, fence_signaled.
  destruct (fs_image_ready s) eqn:E; simpl; auto.
Qed.

Lemma flags_wait_command_fence (s : frame_state) (i : nat) :
  let done := default false (fs_fences s !! i) in
  let busy := default false (fs_in_flight s !! i) in
  fs_fences (wait_for_fence s (command_fence i))
    = (if done then fs_fences s else if busy then <[i := true]> (fs_fences s) else fs_fences s)
  /\ fs_in_flight (wait_for_fence s (command_fence i))
    = (if done then fs_in_flight s else if busy then <[i := false]> (fs_in_flight s)
       else fs_in_flight s)
  /\ fs_image_ready (wait_for_fence s (command_fence i)) = fs_image_ready s.
Proof.
  unfold wait_for_fence, fence_signaled, gpu_complete. cbv zeta.
  destruct (default false (fs_fences s !! i)); simpl; auto.
  destruct (default false (fs_in_flight s !! i)); simpl; auto.
Qed.

Lemma flags_record_draws (slot : nat) (align : Z) (draws : list draw_record)
    (off : Z) (s : frame_state) :
  fs_fences (record_draws slot align draws off s) = fs_fences s
  /\ fs_in_flight (record_draws slot align draws off s) = fs_in_flight s
  /\ fs_image_ready (record_draws slot align draws off s) = fs_image_ready s.
Proof. destruct (record_draws_frame slot align draws off s) as [evs ->]. auto. Qed.

Ltac flags_rewrite :=
  repeat first
    [ rewrite (proj1 (flags_emit _ _)) | rewrite (proj1 (proj2 (flags_emit _ _)))
    | rewrite (proj2 (proj2 (flags_emit _ _)))
    | rewrite (proj1 (flags_set_in_flight _ _ _))
    | rewrite (proj1 (proj2 (flags_set_in_flight _ _ _)))
    | rewrite (proj2 (proj2 (flags_set_in_flight _ _ _)))
    | rewrite (proj1 (flags_reset_fence _ _))
    | rewrite (proj1 (proj2 (flags_reset_fence _ _)))
    | rewrite (proj2 (proj2 (flags_reset_fence _ _)))
    | rewrite (proj1 (flags_wait_image_ready _))
    | rewrite (proj1 (proj2 (flags_wait_image_ready _)))
    | rewrite (proj2 (proj2 (flags_wait_image_ready _)))
    | rewrite (proj1 (flags_wait_command_fence _ _))
    | rewrite (proj1 (proj2 (flags_wait_command_fence _ _)))
    | rewrite (proj2 (proj2 (flags_wait_command_fence _ _)))
    | rewrite (proj1 (flags_record_draws _ _ _ _ _))
    | rewrite (proj1 (proj2 (flags_record_draws _ _ _ _ _)))
    | rewrite (proj2 (proj2 (flags_record_draws _ _ _ _ _))) ].

(** X7: one call of [draw] leaves the acquired slot's fence unsignaled and
    its command buffer in flight, leaves every other slot's fence and
    command buffer as they were, and leaves [m_next_image_ready] signaled. *)
Theorem draw_state_effect (align : Z) (draws : list draw_record)
    (a : nat) (s : frame_state) :
  fs_fences (draw align draws a s) = <[a := false]> (fs_fences s)
  /\ fs_in_flight (draw align draws a s) = <[a := true]> (fs_in_flight s)
  /\ fs_image_ready (draw align draws a s) = true.
Proof.
  unfold draw. cbv zeta. flags_rewrite.
  split; [| split; [| reflexivity]];
    destruct (default false (fs_fences s !! a)); [reflexivity | | reflexivity |];
    destruct (default false (fs_in_flight s !! a)); try reflexivity;
    rewrite list_insert_insert, decide_True by reflexivity; reflexivity.
Qed.

Lemma teardown_strict_nil (lo hi : nat) : teardown_strict lo hi [].
Proof. split; constructor. Qed.

Lemma teardown_strict_app (lo m hi : nat) (l1 l2 : list teardown_event) :
  (lo <= m < hi)%nat ->
  teardown_strict lo m l1 -> teardown_strict (S m) hi l2 -> teardown_strict lo hi (l1 ++ l2).
Proof.
  intros Hm [S1 F1] [S2 F2]. split.
  - apply strongly_sorted_app; [exact S1 | exact S2 |].
    intros x y Hx Hy. rewrite List.Forall_forall in F1, F2.
    specialize (F1 x Hx). specialize (F2 y Hy). unfold event_lt, rank_lt. left. lia.
  - apply Forall_app. split.
    + eapply List.Forall_impl; [| exact F1]. simpl. intros. lia.
    + eapply List.Forall_impl; [| exact F2]. simpl. intros. lia.
Qed.

Lemma teardown_strict_when (lo hi : nat) (b : bool) (l : list teardown_event) :
  teardown_strict lo hi l -> teardown_strict lo hi (when b l).
Proof. destruct b; [auto | intros _; apply teardown_strict_nil]. Qed.

Lemma teardown_strict_single (lo hi : nat) (e : teardown_event) :
  (lo <= fst (event_rank e) <= hi)%nat -> teardown_strict lo hi [e].
Proof. intros H. split; repeat constructor; lia. Qed.

Lemma teardown_strict_for_each (p c n : nat) (f : nat -> list teardown_event) :
  (forall i, StronglySorted event_lt (f i)) ->
  (forall i e, In e (f i) ->
     fst (event_rank e) = p /\ c * i <= snd (event_rank e) < c * S i)%nat ->
  teardown_strict p p (for_each n f).
Proof.
  intros Hs Hr. split.
  - induction n as [| n IH]; [constructor |].
    unfold for_each in *. rewrite seq_S, flat_map_app. simpl. rewrite app_nil_r.
    apply strongly_sorted_app; [exact IH | apply Hs |].
    intros x y Hx Hy.
    destruct (for_each_In n f x Hx) as (i & Hi & Hx').
    destruct (Hr i x Hx') as [Px Ix]. destruct (Hr n y Hy) as [Py Iy].
    unfold event_lt, rank_lt. right. split; [congruence |].
    assert (c * S i <= c * n)%nat by (apply Nat.mul_le_mono_l; lia). lia.
  - apply List.Forall_forall. intros e He.
    destruct (for_each_In n f e He) as (i & _ & He').
    destruct (Hr i e He') as [-> _]. lia.
Qed.

Ltac strict_sorted :=
  intros ?; repeat constructor; unfold event_lt, rank_lt; simpl; lia.
Ltac strict_one := apply teardown_strict_when, teardown_strict_single; simpl; lia.
Ltac strict_split m := apply (teardown_strict_app _ m%nat _); [lia | |].
Ltac strict_loop p c :=
  apply (teardown_strict_for_each p c); [strict_sorted | block_in].

Lemma cleanup_strict (a : app_objects) : teardown_strict 0 27 (cleanup a).
Proof.
  unfold cleanup, textures_cleanup, static_buffers_cleanup, pipeline_cleanup,
    per_frame_cleanup, sampler_cleanup, render_pass_cleanup, shaders_cleanup,
    vk_cleanup, glfw_cleanup.
  rewrite <- !app_assoc.
  strict_split 0%nat; [strict_one |].
  strict_split 1%nat; [strict_one |].
  strict_split 2%nat; [strict_loop 2%nat 3%nat |].
  strict_split 3%nat; [strict_loop 3%nat 2%nat |].
  strict_split 4%nat; [strict_one |]. strict_split 5%nat; [strict_one |].
  strict_split 6%nat; [strict_one |]. strict_split 7%nat; [strict_one |].
  strict_split 8%nat; [strict_loop 8%nat 1%nat |].
  strict_split 9%nat; [strict_one |].
  strict_split 10%nat; [strict_loop 10%nat 2%nat |].
  strict_split 11%nat; [strict_one |]. strict_split 12%nat; [strict_one |].
  strict_split 13%nat; [strict_one |].
  strict_split 14%nat; [strict_loop 14%nat 1%nat |].
  strict_split 15%nat; [strict_one |].
  strict_split 16%nat; [strict_one |]. strict_split 17%nat; [strict_one |].
  strict_split 18%nat; [strict_one |].
  strict_split 19%nat; [strict_loop 19%nat 3%nat |].
  strict_split 20%nat; [strict_loop 20%nat 1%nat |].
  strict_split 21%nat; [strict_one |]. strict_split 22%nat; [strict_one |].
  strict_split 23%nat; [strict_one |]. strict_split 24%nat; [strict_one |].
  strict_split 25%nat; [strict_one |]. strict_split 26%nat; [strict_one |].
  apply teardown_strict_single. simpl. lia.
Qed.

Lemma strongly_sorted_irrefl_NoDup {A} (R : A -> A -> Prop) (l : list A) :
  (forall x, ~ R x x) -> StronglySorted R l -> NoDup l.
Proof.
  intros Hirr. induction 1 as [| x l _ IH Hx]; constructor; [| exact IH].
  intros Hin%list_elem_of_In. rewrite List.Forall_forall in Hx. exact (Hirr x (Hx x Hin)).
Qed.

(** X8: [application::cleanup] never destroys the same object twice, and
    waits for the device and terminates GLFW at most once. *)
Theorem cleanup_no_double_destroy (a : app_objects) : NoDup (cleanup a).
Proof.
  apply (strongly_sorted_irrefl_NoDup event_lt).
  - intros x. unfold event_lt, rank_lt. lia.
  - apply cleanup_strict.
Qed.



Lemma select_physical_device_result (required : list string) (pds : list physical_device) :
  forall found q pd qfi,
  select_physical_device required pds found q = (Some pd, qfi) ->
  (found = Some pd /\ qfi = last_queue_scan required q pds)
  \/ exists pre post, pds = pre ++ pd :: post /\ passes_all_checks required pd = true
       /\ qfi = last_queue_scan required (find_queue_family pd)
                  (if is_discrete pd then [] else post).
Proof.
  induction pds as [| d rest IH]; intros found q pd qfi H; simpl in H.
  - injection H as -> <-. left. auto.
  - assert (Hcont : forall q', select_physical_device required rest found q' = (Some pd, qfi) ->
              q' = (if reaches_queue_scan required d then find_queue_family d else q) ->
              (found = Some pd /\ qfi = last_queue_scan required q (d :: rest))
              \/ exists pre post, d :: rest = pre ++ pd :: post
                   /\ passes_all_checks required pd = true
                   /\ qfi = last_queue_scan required (find_queue_family pd)
                              (if is_discrete pd then [] else post)).
    { intros q' Hs ->. destruct (IH _ _ _ _ Hs) as [[Hf Hq] | (pre & post & Hp & Hpass & Hq)].
      - left. split; [exact Hf | exact Hq].
      - right. exists (d :: pre), post. rewrite Hp. auto. }
    unfold reaches_queue_scan, passes_all_checks, is_discrete in *.
    destruct (bool_decide (pd_extensions d = [])) eqn:E1; simpl in H |- *;
      [eapply Hcont; [exact H | reflexivity] |].
    destruct (Nat.eqb (found_extensions required d) (length required)) eqn:E2; simpl in H |- *;
      [| eapply Hcont; [exact H | reflexivity]].
    destruct (bool_decide (pd_queue_families d = [])) eqn:E3; simpl in H |- *;
      [eapply Hcont; [exact H | reflexivity] |].
    destruct (find_queue_family d =? Z.of_nat (length (pd_queue_families d))) eqn:E4; simpl in H;
      [eapply Hcont; [exact H | reflexivity] |].
    destruct (bool_decide (pd_surface_formats d = [])) eqn:E5; simpl in H;
      [eapply Hcont; [exact H | reflexivity] |].
    destruct (found_surface_format (pd_surface_formats d)) eqn:E6; simpl in H;
      [| eapply Hcont; [exact H | reflexivity]].
    destruct (bool_decide (pd_present_modes d = [])) eqn:E7; simpl in H;
      [eapply Hcont; [exact H | reflexivity] |].
    destruct (found_present_mode (pd_present_modes d)) eqn:E8; simpl in H;
      [| eapply Hcont; [exact H | reflexivity]].
    destruct (pd_deviceType d =? eDiscreteGpu) eqn:Hd.
    + injection H as <- <-. right. exists [], rest. simpl. rewrite Hd, E1, E2, E3, E4, E5, E6, E7, E8. auto.
    + destruct (IH _ _ _ _ H) as [[Hf Hq] | (pre & post & Hp & Hpass & Hq)].
      * injection Hf as <-. right. exists [], rest. simpl. rewrite Hd, E1, E2, E3, E4, E5, E6, E7, E8. auto.
      * right. exists (d :: pre), post. rewrite Hp. auto.
Qed.

(** X10: the queue family index [vk_create_device_objects] stores with the
    chosen device is not necessarily one of that device's families: the
    selected device passes all checks, but [queue_family_index] is shared by
    the loop's iterations, so unless the device is discrete (which ends the
    loop) every later device that has the required extensions and some queue
    family overwrites it with its own scan result. *)
Theorem selected_queue_family_from_last_scan (required : list string)
    (pds : list physical_device) (pd : physical_device) (qfi : Z) :
  vk_select_physical_device required pds = inr (pd, qfi) ->
  exists pre post, pds = pre ++ pd :: post
    /\ passes_all_checks required pd = true
    /\ qfi = last_queue_scan required (find_queue_family pd)
               (if is_discrete pd then [] else post).
Proof.
  unfold vk_select_physical_device.
  destruct (bool_decide (pds = [])); [discriminate |].
  destruct (select_physical_device required pds None (2 ^ 32 - 1)) as [[pd' |] q] eqn:E;
    [| discriminate].
  intros H. injection H as <- <-.
  destruct (select_physical_device_result _ _ _ _ _ _ E) as [[Hf _] | Hr];
    [discriminate | exact Hr].
Qed.

Lemma selected_queue_family_from_last_scan_witness :
  vk_select_physical_device required_device_extensions
    [integrated_gpu; fifo_only_two_family_gpu] = inr (integrated_gpu, 1)
  /\ find_queue_family integrated_gpu = 0
  /\ length (pd_queue_families integrated_gpu) = 1%nat
  /\ exists pre post, [integrated_gpu; fifo_only_two_family_gpu] = pre ++ integrated_gpu :: post
       /\ passes_all_checks required_device_extensions integrated_gpu = true
       /\ 1 = last_queue_scan required_device_extensions (find_queue_family integrated_gpu)
                (if is_discrete integrated_gpu then [] else post).
Proof.
  split; [vm_compute; reflexivity |].
  split; [vm_compute; reflexivity |].
  split; [reflexivity |].
  apply selected_queue_family_from_last_scan. vm_compute. reflexivity.
Defined.

Lemma execute_command_keeps (s : dev_state) (c : command) :
  execute_command s c
  = mk_state (ds_next s) (ds_buffers s) (ds_memories (execute_command s c)) (ds_images s)
      (ds_views s) (ds_command_buffers s) (ds_queue s) (ds_static_buffers s)
      (ds_textures s) (ds_log s).
Proof.
  destruct s as [n bufs mems imgs views cbs q sbs txs log].
  destruct c as [src dst size | | ]; simpl; try reflexivity.
  destruct (buffer_memory _ src) as [src_mo |]; [| reflexivity].
  destruct (bufs !! dst) as [[? ? [dst_m |]] |]; reflexivity.
Qed.

Lemma foldl_keeps_but_memories {A} (f : dev_state -> A -> dev_state) :
  (forall s x, f s x
     = mk_state (ds_next s) (ds_buffers s) (ds_memories (f s x)) (ds_images s)
         (ds_views s) (ds_command_buffers s) (ds_queue s) (ds_static_buffers s)
         (ds_textures s) (ds_log s)) ->
  forall l s,
  foldl f s l
  = mk_state (ds_next s) (ds_buffers s) (ds_memories (foldl f s l))
      (ds_images s) (ds_views s) (ds_command_buffers s) (ds_queue s)
      (ds_static_buffers s) (ds_textures s) (ds_log s).
Proof.
  intros Hf l. induction l as [| x l IH]; intros s; simpl.
  - destruct s; reflexivity.
  - rewrite IH at 1. f_equal; rewrite Hf; reflexivity.
Qed.

Lemma execute_command_buffer_keeps (s : dev_state) (cb : nat) :
  execute_command_buffer s cb
  = mk_state (ds_next s) (ds_buffers s) (ds_memories (execute_command_buffer s cb))
      (ds_images s) (ds_views s) (ds_command_buffers s) (ds_queue s)
      (ds_static_buffers s) (ds_textures s) (ds_log s).
Proof. unfold execute_command_buffer. apply foldl_keeps_but_memories, execute_command_keeps. Qed.

(** X11: a successful [create_texture] creates the staging buffer (handle
    n) with the texture's bytes, then an image (n+2) with the texture's
    extent if it is a 2D texture and a zero extent otherwise, binds it to
    fresh device-local memory (n+3) and creates a view (n+4) of it; it
    records the undefined-to-transfer-destination barrier, the copy from the
    staging buffer and the transfer-destination-to-shader-read barrier into a
    one-time command buffer (n+5), submits it and waits for the queue, frees
    the command buffer and then the staging buffer, and appends the new
    texture to [m_textures], returning its index. *)
Theorem create_texture_uploads (di : device_info) (file_name : string) (t : gli_texture)
    (st st' : dev_state) (idx : nat) :
  create_texture di file_name (Some t) st = (inr idx, st') ->
  let n := ds_next st in
  let len := Z.of_nat (length (tx_data t)) in
  let '(w, h) := if tx_target t =? TARGET_2D then tx_extent t else (0, 0) in
  let ireqs := di_image_requirements di w h (tx_format t) in
  exists ty_staging ty_image,
    Z.land (memory_type_flags (di_memory_types di) ty_image) optimized_memory_properties
      = optimized_memory_properties
    /\ ds_log st' = ds_log st ++
         [ev_create_buffer n eTransferSrc len;
          ev_allocate_memory (S n) ty_staging (fst (di_buffer_requirements di eTransferSrc len));
          ev_bind_memory n (S n);
          ev_map_memory (S n) len;
          ev_memcpy (S n) (tx_data t);
          ev_unmap_memory (S n);
          ev_create_image (S (S n));
          ev_allocate_memory (S (S (S n))) ty_image (fst ireqs);
          ev_bind_memory (S (S n)) (S (S (S n)));
          ev_create_image_view (S (S (S (S n)))) (S (S n));
          ev_allocate_command_buffer (S (S (S (S (S n)))));
          ev_record (S (S (S (S (S n)))))
            (cmd_pipeline_barrier (S (S n)) eLayoutUndefined eTransferDstOptimal);
          ev_record (S (S (S (S (S n))))) (cmd_copy_buffer_to_image n (S (S n)));
          ev_record (S (S (S (S (S n)))))
            (cmd_pipeline_barrier (S (S n)) eTransferDstOptimal eShaderReadOnlyOptimal);
          ev_end_command_buffer (S (S (S (S (S n)))));
          ev_submit (S (S (S (S (S n)))));
          ev_queue_wait_idle;
          ev_free_command_buffer (S (S (S (S (S n)))));
          ev_destroy_buffer n;
          ev_free_memory (S n)]
    /\ ds_images st' !! S (S n)
         = Some {| io_width := w; io_height := h; io_format := tx_format t;
                   io_memory := Some (S (S (S n))) |}
    /\ ds_views st' !! S (S (S (S n))) = Some (S (S n))
    /\ idx = length (ds_textures st)
    /\ ds_textures st'
         = ds_textures st ++ [{| di_image := S (S n); di_device_memory := S (S (S n));
                                 di_view := S (S (S (S n))) |}]
    /\ ds_queue st' = [].
Proof.
  destruct st as [n bufs mems imgs views cbs q sbs txs log]. simpl. intros H.
  unfold create_texture in H.
  apply bind_inr_inv in H as (sb & s1 & H1 & H).
  apply create_device_buffer_inr in H1 as (ty1 & E1 & A1 & -> & ->).
  simpl in E1, A1.
  destruct (if tx_target t =? TARGET_2D then tx_extent t else (0, 0)) as [w hgt] eqn:Ext.
  unfold createImage in H. rewrite Ext in H.
  unfold_device_calls in H. rewrite lookup_insert_eq in H. cbv beta iota delta [io_width io_height io_format snd] in H.
  lazymatch type of H with context [get_memory_type ?mt ?req optimized_memory_properties] =>
    destruct (get_memory_type mt req optimized_memory_properties) as [e | ty2] eqn:E2 end;
    cbv beta iota in H; [discriminate |].
  destruct (di_allocation_succeeds di ty2 _) eqn:A2; cbv beta iota in H; [| discriminate].
  injection H as <- <-.
  exists ty1, ty2.
  split; [exact (get_memory_type_flags _ _ _ _ E2) |].
  rewrite (foldl_keeps_but_memories _ execute_command_buffer_keeps). cbv beta iota delta [ds_next ds_buffers ds_memories ds_images ds_views ds_command_buffers ds_queue ds_static_buffers ds_textures ds_log mk_state].
  split; [rewrite <- !app_assoc; reflexivity |].
  split; [map_simpl; reflexivity |].
  split; [map_simpl; reflexivity |].
  auto.
Qed.

Lemma create_texture_uploads_witness :
  fst (create_texture roomy_device "t.ktx" (Some example_texture) empty_dev_state) = inr 0%nat
  /\ ds_views (snd (create_texture roomy_device "t.ktx" (Some example_texture)
                      empty_dev_state)) !! 4%nat = Some 2%nat.
Proof.
  split; [vm_compute; reflexivity |].
  destruct (create_texture_uploads roomy_device "t.ktx" example_texture empty_dev_state
              (snd (create_texture roomy_device "t.ktx" (Some example_texture)
                      empty_dev_state)) 0)
    as (ty1 & ty2 & _ & _ & _ & Hv & _); [vm_compute; reflexivity |].
  exact Hv.
Defined.

Lemma gltf_foldM_inv {A B} (I : A -> Prop) (f : A -> B -> gltf_error + A) :
  (forall a x a', I a -> f a x = inr a' -> I a') ->
  forall l a a', I a -> gltf_foldM f a l = inr a' -> I a'.
Proof.
  intros Hf l. induction l as [| x l IH]; intros a a' Ha H; simpl in H.
  - injection H as <-. exact Ha.
  - destruct (f a x) as [e | a1] eqn:E; [discriminate |].
    apply (IH a1); [exact (Hf _ _ _ Ha E) | exact H].
Qed.

Section GltfLoadProofs.
Context {App Draw Tex : Type}.
Variable load_draw : gltf_primitive -> App -> gltf_error + (Draw * App).
Variable load_texture : gltf_primitive -> App -> gltf_error + (Tex * App).
Variable model : gltf_model.
Implicit Types ls : @gltf_load_state App Draw Tex.

Lemma load_primitive_draw_inv ls p ls' :
  pass1_inv ls -> load_primitive_draw load_draw ls p = inr ls' -> pass1_inv ls'.
Proof.
  unfold load_primitive_draw. intros (Hd & Hw & Hi) H.
  destruct (load_draw p (ls_app ls)) as [e | [d app]]; [discriminate |].
  injection H as <-. split; [| split]; simpl; auto.
  apply Forall_app. split; [exact Hd | constructor; [reflexivity | constructor]].
Qed.

Lemma gltf_load_node_inv fuel : forall node ls ls',
  pass1_inv ls -> gltf_load_node load_draw model fuel node ls = inr ls' -> pass1_inv ls'.
Proof.
  induction fuel as [| fuel IH]; intros node ls ls' Hls H; simpl in H; [discriminate |].
  destruct (if gn_mesh node =? -1 then inr ls else _) as [e | ls1] eqn:E1; [discriminate |].
  assert (H1 : pass1_inv ls1).
  { destruct (gn_mesh node =? -1); [injection E1 as <-; exact Hls |].
    destruct (vec_at _ _) as [e | mesh]; [discriminate |].
    exact (gltf_foldM_inv _ _ load_primitive_draw_inv _ _ _ Hls E1). }
  destruct (if gn_camera node =? -1 then inr ls1 else _) as [e | ls2] eqn:E2; [discriminate |].
  assert (H2 : pass1_inv ls2).
  { destruct (gn_camera node =? -1); [injection E2 as <-; exact H1 |].
    destruct (vec_at (seq 0 (gm_camera_count model)) (gn_camera node)); [discriminate | injection E2 as <-; exact H1]. }
  revert H. apply (gltf_foldM_inv (@pass1_inv App Draw Tex)); [| exact H2].
  intros a x a' Ha Hx. destruct (vec_at (gm_nodes model) x) as [e | child]; [discriminate |].
  exact (IH _ _ _ Ha Hx).
Qed.

Lemma load_primitive_state_inv ls p ls' :
  pass2_inv ls -> load_primitive_state load_texture ls p = inr ls' -> pass2_inv ls'.
Proof.
  unfold load_primitive_state. intros (Hw & Hk & Hd) H.
  destruct (load_texture p (ls_app ls)) as [e | [tex app]]; [discriminate |].
  destruct (ls_draws ls !! ls_draw_index ls) as [[d o] |] eqn:Hl; [| discriminate].
  injection H as <-. unfold pass2_inv. cbn [ls_writes ls_draws ls_draw_index].
  apply lookup_lt_Some in Hl.
  split; [| split].
  - rewrite map_app, Hw, seq_S. reflexivity.
  - rewrite length_insert. lia.
  - intros i d' o' Hi. rewrite list_lookup_insert in Hi.
    case_decide as Heq.
    + destruct Heq as [<- _]. injection Hi as <- <-.
      destruct (Nat.ltb_spec (ls_draw_index ls) (S (ls_draw_index ls))); [reflexivity | lia].
    + apply Decidable.not_and in Heq; [| apply Nat.eq_decidable]. rewrite (Hd i d' o' Hi).
      destruct (Nat.ltb_spec i (ls_draw_index ls)), (Nat.ltb_spec i (S (ls_draw_index ls)));
        try reflexivity; lia.
Qed.

Lemma gltf_load_immutable_state_inv fuel : forall node ls ls',
  pass2_inv ls -> gltf_load_immutable_state load_texture model fuel node ls = inr ls' ->
  pass2_inv ls'.
Proof.
  induction fuel as [| fuel IH]; intros node ls ls' Hls H; simpl in H; [discriminate |].
  destruct (gn_mesh node =? -1); [injection H as <-; exact Hls |].
  destruct (vec_at _ _) as [e | mesh]; [discriminate |].
  destruct (gltf_foldM _ ls mesh) as [e | ls1] eqn:E1; [discriminate |].
  pose proof (gltf_foldM_inv _ _ load_primitive_state_inv _ _ _ Hls E1) as H1.
  revert H. apply (gltf_foldM_inv (@pass2_inv App Draw Tex)); [| exact H1].
  intros a x a' Ha Hx. destruct (vec_at (gm_nodes model) x) as [e | child]; [discriminate |].
  exact (IH _ _ _ Ha Hx).
Qed.

Lemma pass1_pass2_inv ls : pass1_inv ls -> pass2_inv ls.
Proof.
  intros (Hd & Hw & Hi). unfold pass2_inv. rewrite Hw, Hi. simpl.
  split; [reflexivity |]. split; [lia |].
  intros i d o Hl. rewrite List.Forall_forall in Hd.
  apply (Hd (d, o)). eapply list_elem_of_lookup_2 in Hl. apply list_elem_of_In in Hl. exact Hl.
Qed.

Lemma gltf_load_first_pass fuel app ls :
  gltf_load load_draw load_texture model fuel app = inr ls ->
  exists scene_nodes ls1,
    vec_at (gm_scenes model) (gm_default_scene model) = inr scene_nodes
    /\ pass1_inv ls1
    /\ gltf_foldM (fun ls node_index =>
          match vec_at (gm_nodes model) node_index with
          | inl e => inl e
          | inr scene_node => gltf_load_immutable_state load_texture model fuel scene_node ls
          end) ls1 scene_nodes = inr ls.
Proof.
  unfold gltf_load.
  destruct (vec_at (gm_scenes model) (gm_default_scene model)) as [e | scene_nodes];
    [discriminate |].
  destruct (gltf_foldM _ _ scene_nodes) as [e | ls1] eqn:E1; [discriminate |].
  intros H. exists scene_nodes, ls1. split; [reflexivity |]. split; [| exact H].
  revert E1. apply (gltf_foldM_inv (@pass1_inv App Draw Tex)).
  - intros a x a' Ha Hx. destruct (vec_at (gm_nodes model) x) as [e | n]; [discriminate |].
    exact (gltf_load_node_inv _ _ _ _ Ha Hx).
  - split; [constructor | split; reflexivity].
Qed.

Lemma gltf_load_pass2_inv fuel app ls :
  gltf_load load_draw load_texture model fuel app = inr ls -> pass2_inv ls.
Proof.
  intros H. destruct (gltf_load_first_pass _ _ _ H) as (scene_nodes & ls1 & _ & H1 & H2).
  revert H2. apply (gltf_foldM_inv (@pass2_inv App Draw Tex)); [| exact (pass1_pass2_inv _ H1)].
  intros a x a' Ha Hx. destruct (vec_at (gm_nodes model) x) as [e | n]; [discriminate |].
  exact (gltf_load_immutable_state_inv _ _ _ _ Ha Hx).
Qed.

End GltfLoadProofs.

(** X12: after a successful [gltf_load], the descriptor writes of the
    second pass went to the sets 0, 1, ..., k-1 in this order, there are
    no more of them than draws, and draw i holds set i as its immutable
    state when i < k and is left with a null immutable state otherwise. *)
Theorem gltf_load_immutable_prefix {App Draw Tex : Type}
    (load_draw : gltf_primitive -> App -> gltf_error + (Draw * App))
    (load_texture : gltf_primitive -> App -> gltf_error + (Tex * App))
    (model : gltf_model) (fuel : nat) (app : App) (ls : gltf_load_state) :
  gltf_load load_draw load_texture model fuel app = inr ls ->
  let k := length (ls_writes ls) in
  map fst (ls_writes ls) = seq 0 k
  /\ (k <= length (ls_draws ls))%nat
  /\ forall i d o, ls_draws ls !! i = Some (d, o) ->
       o = (if (i <? k)%nat then Some i else None).
Proof.
  intros H. destruct (gltf_load_pass2_inv _ _ _ _ _ _ H) as (Hw & Hk & Hd).
  assert (Hlen : length (ls_writes ls) = ls_draw_index ls).
  { rewrite <- (length_map fst), Hw, length_seq. reflexivity. }
  cbv zeta. rewrite Hlen. auto.
Qed.

Lemma gltf_load_immutable_prefix_witness :
  gltf_load example_load_draw example_load_texture meshed_root_model 8 tt
    = inr {| ls_app := tt;
             ls_draws := [({| gp_indices := 0; gp_material := 0 |}, Some 0%nat);
                          ({| gp_indices := 1; gp_material := 1 |}, Some 1%nat);
                          ({| gp_indices := 2; gp_material := 2 |}, None)];
             ls_writes := [(0%nat, 0); (1%nat, 1)];
             ls_draw_index := 2 |}
  /\ map fst [(0%nat, 0); (1%nat, 1)] = seq 0 2
  /\ (forall d o, [({| gp_indices := 0; gp_material := 0 |}, Some 0%nat);
                   ({| gp_indices := 1; gp_material := 1 |}, Some 1%nat);
                   ({| gp_indices := 2; gp_material := 2 |}, None)] !! 1%nat = Some (d, o) ->
        o = Some 1%nat)
  /\ (forall d o, [({| gp_indices := 0; gp_material := 0 |}, Some 0%nat);
                   ({| gp_indices := 1; gp_material := 1 |}, Some 1%nat);
                   ({| gp_indices := 2; gp_material := 2 |}, None)] !! 2%nat = Some (d, o) ->
        o = None).
Proof.
  assert (E : gltf_load example_load_draw example_load_texture meshed_root_model 8 tt
    = inr {| ls_app := tt;
             ls_draws := [({| gp_indices := 0; gp_material := 0 |}, Some 0%nat);
                          ({| gp_indices := 1; gp_material := 1 |}, Some 1%nat);
                          ({| gp_indices := 2; gp_material := 2 |}, None)];
             ls_writes := [(0%nat, 0); (1%nat, 1)];
             ls_draw_index := 2 |}) by (vm_compute; reflexivity).
  pose proof (gltf_load_immutable_prefix example_load_draw example_load_texture
                meshed_root_model 8 tt _ E) as Hp.
  cbv zeta in Hp. destruct Hp as (Hw & _ & Hd).
  split; [exact E | split; [exact Hw | split]].
  - intros d o H. exact (Hd 1%nat d o H).
  - intros d o H. exact (Hd 2%nat d o H).
Defined.

(** X13: when every root node of the default scene has no mesh (-1), the
    second pass of [gltf_load] stops at the roots: no descriptor set is
    written and every draw the first pass loaded from the roots' descendants
    keeps a null immutable state. *)
Theorem gltf_load_meshless_roots {App Draw Tex : Type}
    (load_draw : gltf_primitive -> App -> gltf_error + (Draw * App))
    (load_texture : gltf_primitive -> App -> gltf_error + (Tex * App))
    (model : gltf_model) (fuel : nat) (app : App) (ls : gltf_load_state)
    (scene_nodes : list Z) :
  vec_at (gm_scenes model) (gm_default_scene model) = inr scene_nodes ->
  Forall (fun node_index => forall node, vec_at (gm_nodes model) node_index = inr node ->
                              gn_mesh node = -1) scene_nodes ->
  gltf_load load_draw load_texture model fuel app = inr ls ->
  ls_writes ls = [] /\ Forall (fun d => snd d = None) (ls_draws ls).
Proof.
  intros Hs Hroots H.
  destruct (gltf_load_first_pass _ _ _ _ _ _ H) as (sn & ls1 & Hs' & (Hd & Hw & _) & H2).
  rewrite Hs in Hs'. injection Hs' as <-.
  assert (Hls : ls1 = ls).
  { clear Hs H Hd Hw. revert ls1 H2. induction Hroots as [| x l Hx _ IH]; intros ls1 H2.
    - injection H2 as <-. reflexivity.
    - simpl in H2. destruct (vec_at (gm_nodes model) x) as [e | n] eqn:E; [discriminate |].
      destruct fuel as [| fuel']; [discriminate |].
      simpl in H2. rewrite (Hx n eq_refl) in H2. simpl in H2. apply IH, H2. }
  subst ls1. auto.
Qed.

Lemma gltf_load_meshless_roots_witness :
  gltf_load example_load_draw example_load_texture root_transform_model 8 tt
    = inr {| ls_app := tt; ls_draws := [(example_primitive, None)]; ls_writes := [];
             ls_draw_index := 0 |}
  /\ Forall (fun d : gltf_primitive * option nat => snd d = None) [(example_primitive, None)].
Proof.
  split; [vm_compute; reflexivity |].
  refine (proj2 (gltf_load_meshless_roots example_load_draw example_load_texture
           root_transform_model 8 tt
           {| ls_app := tt; ls_draws := [(example_primitive, None)]; ls_writes := [];
              ls_draw_index := 0 |} [0%Z] _ _ _)).
  - vm_compute. reflexivity.
  - constructor; [| constructor]. intros node Hn. vm_compute in Hn.
    injection Hn as <-. reflexivity.
  - vm_compute. reflexivity.
Defined.

Lemma create_static_buffer_push (di : device_info) (flags : Z) (data : list Byte.byte)
    (st st' : dev_state) (idx : nat) :
  create_static_buffer di flags data st = (inr idx, st') ->
  idx = length (ds_static_buffers st)
  /\ exists b, ds_static_buffers st' = ds_static_buffers st ++ [b].
Proof.
  destruct st as [n bufs mems imgs views cbs q sbs txs log]. simpl. intros H.
  unfold create_static_buffer in H.
  apply bind_inr_inv in H as (sb & s1 & H1 & H).
  apply create_device_buffer_inr in H1 as (ty1 & _ & _ & -> & ->).
  apply bind_inr_inv in H as (u & s2 & H2 & H).
  unfold_device_calls in H2. injection H2 as _ <-.
  apply bind_inr_inv in H as (ob & s3 & H3 & H).
  apply create_device_buffer_inr in H3 as (ty2 & _ & _ & -> & ->).
  unfold_device_calls in H. injection H as <- <-.
  rewrite (foldl_keeps_but_memories _ execute_command_buffer_keeps).
  cbv beta iota delta [ds_static_buffers mk_state].
  split; [reflexivity | eexists; reflexivity].
Qed.

Lemma gltf_load_ibo_hit (di : device_info) (gb : gltf_buffers)
    (primitive : gltf_primitive) (loaded_ibo : gmap Z Z) (s : dev_state)
    (index_accessor : gltf_index_accessor) (ibo : Z) :
  vec_at (gb_accessors gb) (gp_indices primitive) = inr index_accessor ->
  loaded_ibo !! u32 (ia_bufferView index_accessor) = Some ibo ->
  gltf_load_ibo di gb primitive loaded_ibo s
    = (match gltf_first_index (ia_accessor index_accessor) with
       | None => inl gltf_undefined_behaviour
       | Some first_index =>
           inr {| if_ibo := ibo; if_first_index := first_index;
                  if_index_count := u32 (acc_count (ia_accessor index_accessor)) |}
       end, (loaded_ibo, s)).
Proof.
  intros Ha Hc. unfold gltf_load_ibo. rewrite Ha, Hc.
  destruct (gltf_first_index _); reflexivity.
Qed.

Lemma gltf_load_ibo_caches (di : device_info) (gb : gltf_buffers)
    (primitive : gltf_primitive) (loaded_ibo loaded_ibo' : gmap Z Z) (s s' : dev_state)
    (index_accessor : gltf_index_accessor) (fields : ibo_fields) :
  vec_at (gb_accessors gb) (gp_indices primitive) = inr index_accessor ->
  gltf_load_ibo di gb primitive loaded_ibo s = (inr fields, (loaded_ibo', s')) ->
  loaded_ibo' !! u32 (ia_bufferView index_accessor) = Some (if_ibo fields).
Proof.
  intros Ha. destruct (loaded_ibo !! u32 (ia_bufferView index_accessor)) as [ibo |] eqn:Hc.
  - rewrite (gltf_load_ibo_hit _ _ _ _ _ _ _ Ha Hc).
    destruct (gltf_first_index _); [| discriminate].
    intros H. injection H as <- <- _. exact Hc.
  - unfold gltf_load_ibo. rewrite Ha, Hc.
    destruct (vec_at (gb_bufferViews gb) _) as [e | view]; [discriminate |].
    destruct (vec_at (gb_buffers gb) _) as [e | buf]; [discriminate |].
    destruct (_ <=? _); [| discriminate].
    destruct (create_static_buffer di eIndexBuffer _ s) as [[e | idx] s1]; [discriminate |].
    destruct (gltf_first_index _); [| discriminate].
    intros H. injection H as <- <- _. simpl. apply lookup_insert_eq.
Qed.

(** X14: two primitives whose index accessors use the same buffer view share
    their index buffer: once [gltf_load_ibo] has loaded the first, loading
    the second makes no device call, leaves [loaded_ibo] as it is and gives
    the second draw the same [ibo]. *)
Theorem gltf_load_ibo_shared (di : device_info) (gb : gltf_buffers)
    (p1 p2 : gltf_primitive) (a1 a2 : gltf_index_accessor)
    (loaded_ibo loaded_ibo1 : gmap Z Z) (s s1 : dev_state) (f1 : ibo_fields)
    (r2 : gltf_error + ibo_fields) (st2 : gmap Z Z * dev_state) :
  vec_at (gb_accessors gb) (gp_indices p1) = inr a1 ->
  vec_at (gb_accessors gb) (gp_indices p2) = inr a2 ->
  ia_bufferView a1 = ia_bufferView a2 ->
  gltf_load_ibo di gb p1 loaded_ibo s = (inr f1, (loaded_ibo1, s1)) ->
  gltf_load_ibo di gb p2 loaded_ibo1 s1 = (r2, st2) ->
  st2 = (loaded_ibo1, s1) /\ forall f2, r2 = inr f2 -> if_ibo f2 = if_ibo f1.
Proof.
  intros H1 H2 Hv L1 L2.
  pose proof (gltf_load_ibo_caches _ _ _ _ _ _ _ _ _ H1 L1) as Hc. rewrite Hv in Hc.
  rewrite (gltf_load_ibo_hit _ _ _ _ _ _ _ H2 Hc) in L2.
  destruct (gltf_first_index _); injection L2 as <- <-;
    split; try reflexivity; intros f2 Hf; [injection Hf as <-; reflexivity | discriminate].
Qed.

(** X15: on a cache miss, a successful [gltf_load_ibo] uploads the buffer
    view's bytes as exactly one new static buffer and stores its index in
    [m_static_buffers] truncated to [uint8_t] both as the draw's [ibo] and
    in [loaded_ibo] under the buffer view: from the 257th static buffer on,
    the stored index wraps around and names an earlier buffer. *)
Theorem gltf_load_ibo_uploads (di : device_info) (gb : gltf_buffers)
    (primitive : gltf_primitive) (loaded_ibo loaded_ibo' : gmap Z Z) (s s' : dev_state)
    (index_accessor : gltf_index_accessor) (fields : ibo_fields) :
  vec_at (gb_accessors gb) (gp_indices primitive) = inr index_accessor ->
  loaded_ibo !! u32 (ia_bufferView index_accessor) = None ->
  gltf_load_ibo di gb primitive loaded_ibo s = (inr fields, (loaded_ibo', s')) ->
  if_ibo fields = u8 (Z.of_nat (length (ds_static_buffers s)))
  /\ loaded_ibo' = <[u32 (ia_bufferView index_accessor) := if_ibo fields]> loaded_ibo
  /\ exists b, ds_static_buffers s' = ds_static_buffers s ++ [b].
Proof.
  intros Ha Hc. unfold gltf_load_ibo. rewrite Ha, Hc.
  destruct (vec_at (gb_bufferViews gb) _) as [e | view]; [discriminate |].
  destruct (vec_at (gb_buffers gb) _) as [e | buf]; [discriminate |].
  destruct (_ <=? _); [| discriminate].
  destruct (create_static_buffer di eIndexBuffer _ s) as [[e | idx] s1] eqn:E; [discriminate |].
  destruct (create_static_buffer_push _ _ _ _ _ _ E) as [-> Hb].
  destruct (gltf_first_index _); [| discriminate].
  intros H. injection H as <- <- <-. simpl. auto.
Qed.

Lemma gltf_load_ibo_uploads_witness :
  let s := mk_state 0 ∅ ∅ ∅ ∅ ∅ []
             (repeat {| db_buffer := 0; db_device_memory := 0 |} 256) [] [] in
  let r := gltf_load_ibo roomy_device example_index_buffers
             {| gp_indices := 0; gp_material := 0 |} ∅ s in
  fst r = inr {| if_ibo := 0; if_first_index := 0; if_index_count := 2 |}
  /\ if_ibo {| if_ibo := 0; if_first_index := 0; if_index_count := 2 |}
     = u8 (Z.of_nat (length (ds_static_buffers s))).
Proof.
  cbv zeta. split; [vm_compute; reflexivity |].
  pose (s := mk_state 0 ∅ ∅ ∅ ∅ ∅ []
             (repeat {| db_buffer := 0; db_device_memory := 0 |} 256) [] []).
  pose (r := gltf_load_ibo roomy_device example_index_buffers
               {| gp_indices := 0; gp_material := 0 |} ∅ s).
  refine (proj1 (gltf_load_ibo_uploads roomy_device example_index_buffers
           {| gp_indices := 0; gp_material := 0 |} ∅ (fst (snd r)) s (snd (snd r))
           {| ia_bufferView := 0;
              ia_accessor := {| acc_byteOffset := 0;
                acc_componentType := TINYGLTF_COMPONENT_TYPE_UNSIGNED_SHORT;
                acc_count := 2 |} |}
           {| if_ibo := 0; if_first_index := 0; if_index_count := 2 |} _ _ _));
    unfold r, s; vm_compute; reflexivity.
Defined.

Lemma gltf_load_ibo_shared_witness :
  let p1 := {| gp_indices := 0; gp_material := 0 |} in
  let p2 := {| gp_indices := 1; gp_material := 0 |} in
  let r1 := gltf_load_ibo roomy_device example_index_buffers p1 ∅ empty_dev_state in
  let r2 := gltf_load_ibo roomy_device example_index_buffers p2 (fst (snd r1)) (snd (snd r1)) in
  fst r2 = inr {| if_ibo := 0; if_first_index := 1; if_index_count := 1 |}
  /\ snd r2 = snd r1.
Proof.
  intros p1 p2 r1 r2.
  split; [unfold r2, r1, p1, p2; vm_compute; reflexivity |].
  assert (Hs : snd r2 = (fst (snd r1), snd (snd r1))).
  { refine (proj1 (gltf_load_ibo_shared roomy_device example_index_buffers p1 p2
                     {| ia_bufferView := 0;
                        ia_accessor := {| acc_byteOffset := 0;
                          acc_componentType := TINYGLTF_COMPONENT_TYPE_UNSIGNED_SHORT;
                          acc_count := 2 |} |}
                     {| ia_bufferView := 0;
                        ia_accessor := {| acc_byteOffset := 2;
                          acc_componentType := TINYGLTF_COMPONENT_TYPE_UNSIGNED_SHORT;
                          acc_count := 1 |} |}
                     ∅ (fst (snd r1)) empty_dev_state (snd (snd r1))
                     {| if_ibo := 0; if_first_index := 0; if_index_count := 2 |}
                     (fst r2) (snd r2) _ _ _ _ _));
      unfold r2, r1, p1, p2; vm_compute; reflexivity. }
  rewrite Hs. destruct (snd r1); reflexivity.
Defined.

Lemma gltf_foldM_fails {A B} (f : A -> B -> gltf_error + A) (x : B) :
  (forall a a', f a x <> inr a') ->
  forall l a a', In x l -> gltf_foldM f a l <> inr a'.
Proof.
  intros Hx l. induction l as [| y l IH]; intros a a' Hin; [destruct Hin |].
  simpl. destruct Hin as [<- | Hin].
  - destruct (f a y) as [e | a1] eqn:E; [discriminate |]. exfalso. exact (Hx _ _ E).
  - destruct (f a y) as [e | a1]; [discriminate |]. apply IH, Hin.
Qed.

(** X16: on a node graph with a cycle, the first pass never completes: if
    every node of a set [C] lists among its children the index of a node of
    [C], [gltf_load_node] started at any node of [C] recurses until it runs
    out of stack (or throws earlier), whatever the bound on its depth. *)
Theorem gltf_load_node_cycle {App Draw Tex : Type}
    (load_draw : gltf_primitive -> App -> gltf_error + (Draw * App))
    (model : gltf_model) (C : gltf_node -> Prop) :
  (forall node, C node -> exists node_index child_node,
       In node_index (gn_children node)
       /\ vec_at (gm_nodes model) node_index = inr child_node /\ C child_node) ->
  forall fuel node (ls ls' : @gltf_load_state App Draw Tex),
  C node -> gltf_load_node load_draw model fuel node ls <> inr ls'.
Proof.
  intros HC fuel. induction fuel as [| fuel IH]; intros node ls ls' Hn; simpl; [discriminate |].
  destruct (if gn_mesh node =? -1 then inr ls else _) as [e | ls1]; [discriminate |].
  destruct (if gn_camera node =? -1 then inr ls1 else _) as [e | ls2]; [discriminate |].
  destruct (HC node Hn) as (i & child & Hin & Hi & Hc).
  apply (gltf_foldM_fails _ i); [| exact Hin].
  intros a a'. rewrite Hi. apply IH, Hc.
Qed.

Lemma gltf_load_node_cycle_witness :
  gltf_load_node example_load_draw self_loop_model 100
    {| gn_mesh := -1; gn_camera := -1; gn_children := [0] |}
    {| ls_app := tt; ls_draws := []; ls_writes := []; ls_draw_index := 0 |}
  <> inr {| ls_app := tt; ls_draws := []; ls_writes := [] : list (nat * Z);
            ls_draw_index := 0 |}.
Proof.
  apply (gltf_load_node_cycle example_load_draw self_loop_model
           (fun n => n = {| gn_mesh := -1; gn_camera := -1; gn_children := [0] |})).
  - intros node ->. exists 0, {| gn_mesh := -1; gn_camera := -1; gn_children := [0] |}.
    split; [left; reflexivity |]. split; [vm_compute; reflexivity | reflexivity].
  - reflexivity.
Defined.
